(** * DatastoreSolrBackend: schema synchronisation and record indexing

    A shallow embedding of [ckanext/datastore_search/backend/solr.py].

    The backend talks to two outside parties: a SOLR server (through pysolr
    and through the API v2 over HTTP) and the CKAN action
    [datastore_search].  Both are modelled by one abstract world with a
    transition function that answers each request; the Python methods become
    functions in a monad that threads the world, records every request with
    its answer, and propagates exceptions. *)

From Stdlib Require Import String Ascii List Bool Arith Lia.
Import ListNotations.
Open Scope string_scope.

Set Implicit Arguments.

(** ** Python values and insertion-ordered dictionaries *)

(** The JSON atoms that occur as attributes of a SOLR schema field, as
    members of a record and as filter values. *)
Inductive value : Type :=
| VStr (s : string)
| VBool (b : bool).

Definition value_eqb (a b : value) : bool :=
  match a, b with
  | VStr s, VStr t => String.eqb s t
  | VBool x, VBool y => Bool.eqb x y
  | _, _ => false
  end.

(** [str(v)], as used by [%s] formatting. *)
Definition py_str (v : value) : string :=
  match v with
  | VStr s => s
  | VBool true => "True"
  | VBool false => "False"
  end.

(** Hashable keys: what a dict compares its keys with. *)
Class Key (K : Type) : Type := key_eqb : K -> K -> bool.

#[export] Instance string_Key : Key string := String.eqb.
#[export] Instance value_Key : Key value := value_eqb.

(** The comparison of a lawful key type decides equality. *)
Class KeyOk (K : Type) `{Key K} : Prop :=
  key_eqb_eq : forall x y : K, key_eqb x y = true <-> x = y.
Arguments KeyOk K {_}.

(** A Python dict keeps its keys in insertion order; assigning to a key that
    is already present keeps the key's place. *)
Definition dict (K V : Type) : Type := list (K * V).

Section Dict.
Context {K V : Type} `{Key K}.

Fixpoint dict_get (k : K) (d : dict K V) : option V :=
  match d with
  | [] => None
  | (k', v) :: d' => if key_eqb k k' then Some v else dict_get k d'
  end.

Definition dict_mem (k : K) (d : dict K V) : bool :=
  match dict_get k d with Some _ => true | None => false end.

Fixpoint dict_set (k : K) (v : V) (d : dict K V) : dict K V :=
  match d with
  | [] => [(k, v)]
  | (k', v') :: d' =>
      if key_eqb k k' then (k', v) :: d' else (k', v') :: dict_set k v d'
  end.

Definition dict_keys (d : dict K V) : list K := map fst d.
End Dict.

(** ** Class attributes of DatastoreSolrBackend *)

Definition MAX_ERR_LEN : nat := 1000.

(** [s[:MAX_ERR_LEN]] *)
Definition truncate (s : string) : string := substring 0 MAX_ERR_LEN s.

Definition default_solr_fields : list string :=
  ["_id"; "_version_"; "indexed_ts"].

Definition field_type_map : dict string string :=
  [ ("smallint", "int"); ("integer", "int"); ("bigint", "int");
    ("decimal", "float"); ("numeric", "float");
    ("real", "double"); ("double precision", "double");
    ("smallserial", "int"); ("serial", "int"); ("bigserial", "int");
    ("money", "float");
    ("character varying", "text"); ("varchar", "text");
    ("character", "text"); ("char", "text"); ("bpchar", "text");
    ("text", "text");
    ("bytea", "binary");
    ("timestamp", "date"); ("date", "date"); ("time", "date");
    ("interval", "date");
    ("boolean", "boolean") ].

(** [s in strs] for a string. *)
Definition str_in (s : string) (l : list string) : bool :=
  existsb (String.eqb s) l.

(** [v in strs] for an arbitrary value: only a string can equal a string. *)
Definition value_in (v : value) (l : list string) : bool :=
  existsb (fun s => value_eqb v (VStr s)) l.

(** ** Data carried by the calls *)

(** An entry of [data_dict['fields']]: a DataStore column. *)
Record Field : Type := { id : string; type : string }.

(** A SOLR schema field, a document and a filter mapping are JSON objects. *)
Definition solr_field : Type := dict string value.
Definition document : Type := dict string value.

Record DataDict : Type := {
  resource_id : option string;
  dd_fields : option (list Field);
  records : option (list document);
  filters : option (dict string value)
}.

(** A pysolr.Solr object is determined by the URL of its core. *)
Definition Solr : Type := string.

Record Config : Type := {
  url : string;      (* self.url *)
  prefix : string;   (* self.prefix *)
  debug : bool       (* config.get('debug') *)
}.

(** ** Exceptions *)

Inductive exn : Type :=
| DatastoreSearchException (msg : string)
| SolrError (arg : string)          (* pysolr.SolrError; [arg] is e.args[0] *)
| KeyError (key : string)
| UnboundLocalError (var : string)
| OtherError (what : string).       (* anything else the transport raises *)

Inductive result (A : Type) : Type :=
| Ok (a : A)
| Raise (e : exn).
Arguments Raise {A} e.

(** ** Requests to the outside and their answers *)

Inductive schema_cmd : Type := AddField | ReplaceField | DeleteField.

Inductive call : Type :=
| Ping (conn : Solr)                               (* conn.ping() *)
| SchemaFields (conn : Solr)     (* GET schema/fields on the core *)
| SchemaPost (conn : Solr) (cmd : schema_cmd) (f : solr_field)
    (* POST schema with body {cmd: f} *)
| Add (conn : Solr) (docs : list document) (commit : bool)
| Delete (conn : Solr) (q : string) (commit : bool)
| Commit (conn : Solr) (waitSearcher : bool)
| ApiPost (to : string) (create : option (list (dict string value)))
    (* requests.post on the API v2; the body, when given, is {'create': ...} *)
| ApiGet (to : string)
| DatastoreSearch (rid : option string) (limit : nat).
    (* get_action('datastore_search') *)

(** A decoded JSON answer, reduced to the members the backend reads:
    [status] of a ping, [fields] of a schema read, [error] (with its optional
    [msg]) of a write, and the [fields] of a datastore_search result. *)
Record response : Type := {
  status : option string;
  fields : option (list solr_field);
  error : option (option string);
  ds_fields : option (list Field)
}.

Inductive reply : Type :=
| Raised (e : exn)
| Returned (r : response).

Definition event : Type := (call * reply)%type.

(** What a method hands back to its caller. *)
Inductive pyobject : Type :=
| PyNone
| PyBool (b : bool).

(** ** String formatting *)

Definition result_map {A B} (f : A -> B) (r : result A) : result B :=
  match r with Ok a => Ok (f a) | Raise e => Raise e end.

(** [fmt % args] for the conversions the messages use: [%s] takes the next
    argument and [%%] is a percent sign.  Too few or too many arguments, or
    another conversion, is an error. *)
Fixpoint py_format (fmt : string) (args : list string) : result string :=
  match fmt with
  | EmptyString =>
      match args with
      | [] => Ok EmptyString
      | _ :: _ => Raise (OtherError "TypeError: not all arguments converted")
      end
  | String "%"%char (String "s"%char rest) =>
      match args with
      | a :: args' => result_map (append a) (py_format rest args')
      | [] => Raise (OtherError "TypeError: not enough arguments")
      end
  | String "%"%char (String "%"%char rest) =>
      result_map (String "%"%char) (py_format rest args)
  | String "%"%char _ =>
      Raise (OtherError "ValueError: unsupported format character")
  | String c rest => result_map (String c) (py_format rest args)
  end.

(** [str(x)] of an optional string, [None] printing as such. *)
Definition str_of_opt (o : option string) : string :=
  match o with Some s => s | None => "None" end.

(** ** The monad of backend methods *)

Section Monad.

(** The outside world (the SOLR server and CKAN's DataStore) and how it
    answers a request. *)
Variable World : Type.
Variable respond : call -> World -> reply * World.

(** What running a method from a world gives: its outcome, the requests it
    made with their answers, oldest first, and the world it leaves. *)
Record out (A : Type) : Type := Out {
  res : result A;
  trace : list event;
  final : World
}.

Definition M (A : Type) : Type := World -> out A.

Definition ret {A} (a : A) : M A := fun w => Out (Ok a) [] w.

Definition raise {A} (e : exn) : M A := fun w => Out (Raise e) [] w.

Definition bind {A B} (m : M A) (k : A -> M B) : M B :=
  fun w =>
    let o := m w in
    match res o with
    | Ok a =>
        let o' := k a (final o) in
        Out (res o') (trace o ++ trace o')%list (final o')
    | Raise e => Out (Raise e) (trace o) (final o)
    end.

(** [try: m  except pysolr.SolrError as e: h e.args[0]] *)
Definition try_except_SolrError {A} (m : M A) (h : string -> M A) : M A :=
  fun w =>
    let o := m w in
    match res o with
    | Raise (SolrError arg) =>
        let o' := h arg (final o) in
        Out (res o') (trace o ++ trace o')%list (final o')
    | _ => o
    end.

(** One request: the answer is returned or its exception raised. *)
Definition request (c : call) : M response :=
  fun w =>
    let (r, w') := respond c w in
    match r with
    | Returned x => Out (Ok x) [(c, r)] w'
    | Raised e => Out (Raise e) [(c, r)] w'
    end.

Definition lift {A} (r : result A) : M A :=
  match r with Ok a => ret a | Raise e => raise e end.

(** [for x in l: body x] *)
Fixpoint for_each {A} (l : list A) (body : A -> M unit) : M unit :=
  match l with
  | [] => ret tt
  | x :: l' => bind (body x) (fun _ => for_each l' body)
  end.

End Monad.

Arguments ret {World A} a.
Arguments raise {World A} e.
Arguments lift {World A} r.

Declare Scope py_scope.
Delimit Scope py_scope with py.
Notation "x <- m ;; k" := (bind m (fun x => k))
  (at level 61, m at next level, right associativity) : py_scope.
Notation "m ;; k" := (bind m (fun _ => k))
  (at level 61, right associativity) : py_scope.
Notation "' pat <- m ;; k" := (bind m (fun x => match x with pat => k end))
  (at level 61, pat pattern, m at next level, right associativity) : py_scope.

(** ** The schema diff computed by [create] (lines 139 to 164) *)

(** [self.field_type_map[t]] *)
Definition map_type (t : string) : result string :=
  match dict_get t field_type_map with
  | Some x => Ok x
  | None => Raise (KeyError t)
  end.

(** [d[k]] on a JSON object *)
Definition getitem (k : string) (d : dict string value) : result value :=
  match dict_get k d with
  | Some v => Ok v
  | None => Raise (KeyError k)
  end.

(** The loop over [solr_fields] that fills [keyed_solr_fields]. *)
Fixpoint key_solr_fields (solr_fields : list solr_field)
    (keyed_solr_fields : dict value solr_field)
    : result (dict value solr_field) :=
  match solr_fields with
  | [] => Ok keyed_solr_fields
  | solr_field :: rest =>
      match getitem "name" solr_field with
      | Raise e => Raise e
      | Ok name =>
          if value_in name default_solr_fields
          then key_solr_fields rest keyed_solr_fields
          else key_solr_fields rest (dict_set name solr_field keyed_solr_fields)
      end
  end.

(** The three lists the loop over the DataStore fields appends to. *)
Record lists : Type := {
  ds_field_ids : list string;
  new_fields : list solr_field;
  updated_fields : list solr_field
}.

Definition no_lists : lists :=
  {| ds_field_ids := []; new_fields := []; updated_fields := [] |}.

(** The body of an add-field request. *)
Definition new_field (name type : string) : solr_field :=
  [ ("name", VStr name); ("type", VStr type);
    ("stored", VBool true); ("indexed", VBool true) ].

(** The loop over [data_dict.get('fields', [])]. *)
Fixpoint classify (keyed_solr_fields : dict value solr_field)
    (ds_fields : list Field) (acc : lists) : result lists :=
  match ds_fields with
  | [] => Ok acc
  | ds_field :: rest =>
      let ids :=
        if negb (str_in (id ds_field) default_solr_fields)
        then (ds_field_ids acc ++ [id ds_field])%list
        else ds_field_ids acc in
      match dict_get (VStr (id ds_field)) keyed_solr_fields with
      | None =>
          match map_type (type ds_field) with
          | Raise e => Raise e
          | Ok t =>
              classify keyed_solr_fields rest
                {| ds_field_ids := ids;
                   new_fields :=
                     (new_fields acc ++ [new_field (id ds_field) t])%list;
                   updated_fields := updated_fields acc |}
          end
      | Some live =>
          match map_type (type ds_field) with
          | Raise e => Raise e
          | Ok t =>
              match getitem "type" live with
              | Raise e => Raise e
              | Ok live_type =>
                  if value_eqb (VStr t) live_type
                  then
                    classify keyed_solr_fields rest
                      {| ds_field_ids := ids;
                         new_fields := new_fields acc;
                         updated_fields := updated_fields acc |}
                  else
                    classify keyed_solr_fields rest
                      {| ds_field_ids := ids;
                         new_fields := new_fields acc;
                         updated_fields :=
                           (updated_fields acc
                            ++ [dict_set "type" (VStr t) live])%list |}
              end
          end
      end
  end.

(** The comprehension that fills [remove_fields]. *)
Definition removals (keyed_solr_fields : dict value solr_field)
    (ds_field_ids : list string) : list solr_field :=
  map (fun field_name => [("name", field_name)])
      (filter (fun i => negb (value_in i ds_field_ids))
              (dict_keys keyed_solr_fields)).

Record SchemaDiff : Type := {
  to_add : list solr_field;       (* new_fields *)
  to_update : list solr_field;    (* updated_fields *)
  to_remove : list solr_field     (* remove_fields *)
}.

Definition diff_fields (solr_fields : list solr_field)
    (ds_fields : list Field) : result SchemaDiff :=
  match key_solr_fields solr_fields [] with
  | Raise e => Raise e
  | Ok keyed_solr_fields =>
      match classify keyed_solr_fields ds_fields no_lists with
      | Raise e => Raise e
      | Ok l =>
          Ok {| to_add := new_fields l;
                to_update := updated_fields l;
                to_remove := removals keyed_solr_fields (ds_field_ids l) |}
      end
  end.

(** Truth value of a list. *)
Definition truthy {A} (l : list A) : bool :=
  match l with [] => false | _ :: _ => true end.

(** ** The methods of DatastoreSolrBackend *)

Section DatastoreSolrBackend.

Variable World : Type.
Variable respond : call -> World -> reply * World.

(** [self.url], [self.prefix] and the [debug] setting. *)
Variable cfg : Config.

(** [_], the translation function of ckan.plugins.toolkit. *)
Variable gettext : string -> string.

Local Open Scope py_scope.
Local Abbreviation M := (M World).
Local Abbreviation request := (request respond).

(** [errmsg if not config.get('debug') else detail[:MAX_ERR_LEN]] *)
Definition shown (errmsg detail : string) : string :=
  if negb (debug cfg) then errmsg else truncate detail.

Definition _make_connection (core_name : string) : M (option Solr) :=
  let conn_string := url cfg ++ "/solr/" ++ core_name in
  let conn : Solr := conn_string in
  try_except_SolrError
    (resp <- request (Ping conn) ;;
     match status resp with
     | Some "OK" => ret (Some conn)
     | _ => ret None
     end)
    (fun _ => ret None).

Definition _send_api_request (method endpoint : string)
    (body : option (list (dict string value))) : M response :=
  let conn_string := url cfg ++ "/api/" ++ endpoint in
  if String.eqb method "POST"
  then request (ApiPost conn_string body)
  else request (ApiGet conn_string).

(** [connection if connection else self._make_connection(core_name)] *)
Definition connect (core_name : string) (connection : option Solr)
    : M (option Solr) :=
  match connection with
  | None => _make_connection core_name
  | Some c => ret (Some c)
  end.

(** Lines 116 to 131 of [create]: the connection, and [errmsg], which is
    assigned only when the core has to be created. *)
Definition create_connect (core_name : string)
    (connection : option Solr) : M (option string * Solr) :=
  conn <- connect core_name connection ;;
  '(errmsg, conn) <-
    match conn with
    | None =>
        errmsg <- lift (py_format (gettext "Could not create SOLR core %s")
                                  [core_name]) ;;
        let req_body :=
          [[("name", VStr core_name);
            ("configSet", VStr "datastore_resource")]] in
        resp <- _send_api_request "POST" "cores" (Some req_body) ;;
        match error resp with
        | Some err =>
            raise (DatastoreSearchException
                     (shown errmsg (match err with
                                    | Some msg => msg
                                    | None => errmsg
                                    end)))
        | None =>
            conn <- _make_connection core_name ;;
            ret (Some errmsg, conn)
        end
    | Some c => ret (None, Some c)
    end ;;
  match conn with
  | None =>
      msg <- lift (py_format (gettext "Could not connect to SOLR core %s")
                             [core_name]) ;;
      raise (DatastoreSearchException msg)
  | Some c => ret (errmsg, c)
  end.

(** Lines 133 to 138 of [create]: the schema read.  The handler reads the
    local [errmsg], which is unbound unless the core was just created. *)
Definition read_schema (errmsg : option string) (conn : Solr)
    : M (list solr_field) :=
  try_except_SolrError
    (resp <- request (SchemaFields conn) ;;
     match fields resp with
     | Some fs => ret fs
     | None => raise (KeyError "fields")
     end)
    (fun arg =>
       if negb (debug cfg)
       then match errmsg with
            | Some m => raise (DatastoreSearchException m)
            | None => raise (UnboundLocalError "errmsg")
            end
       else raise (DatastoreSearchException (truncate arg))).

(** The body shared by the three loops of lines 166 to 212: one POST to
    the schema for field [f]. *)
Definition post_field (conn : Solr) (cmd : schema_cmd)
    (template core_name : string) (f : solr_field) : M unit :=
  name <- lift (getitem "name" f) ;;
  msg <- lift (py_format template [py_str name; core_name]) ;;
  let errmsg := gettext msg in
  resp <- try_except_SolrError
            (request (SchemaPost conn cmd f))
            (fun arg =>
               raise (DatastoreSearchException (shown errmsg arg))) ;;
  match error resp with
  | Some err =>
      raise (DatastoreSearchException
               (shown errmsg (match err with
                              | Some msg => msg
                              | None => errmsg
                              end)))
  | None => ret tt
  end.

(** Lines 166 to 212 of [create]. *)
Definition apply_diff (conn : Solr) (core_name : string)
    (d : SchemaDiff) : M unit :=
  for_each (to_add d)
    (post_field conn AddField
       "Could not add field %s to SOLR Schema %s" core_name) ;;
  for_each (to_update d)
    (post_field conn ReplaceField
       "Could not update field %s on SOLR Schema %s" core_name) ;;
  for_each (to_remove d)
    (post_field conn DeleteField
       "Could not delete field %s from SOLR Schema %s" core_name).

Definition core_name_of (data_dict : DataDict) : string :=
  prefix cfg ++ str_of_opt (resource_id data_dict).

Definition create (data_dict : DataDict) (connection : option Solr)
    : M pyobject :=
  let core_name := core_name_of data_dict in
  '(errmsg, conn) <- create_connect core_name connection ;;
  solr_fields <- read_schema errmsg conn ;;
  d <- lift (diff_fields solr_fields
               (match dd_fields data_dict with
                | Some l => l
                | None => []
                end)) ;;
  apply_diff conn core_name d ;;
  if truthy (to_add d) || truthy (to_update d) || truthy (to_remove d)
  then ret PyNone      (* return *)
  else ret PyNone.     (* the end of the body *)

(** The body of the loop of [upsert]: one document per add call. *)
Definition add_record (conn : Solr) (core_name : string) (r : document)
    : M unit :=
  try_except_SolrError
    (request (Add conn [r] false) ;; ret tt)
    (fun arg =>
       msg <- lift (py_format "Failed to index records for %s"
                              [core_name]) ;;
       let errmsg := gettext msg in
       raise (DatastoreSearchException (shown errmsg arg))).

(** Lines 230 to 245 of [upsert]: the connection, made by creating the
    core from the DataStore's fields when there is none. *)
Definition upsert_connect (data_dict : DataDict)
    (connection : option Solr) : M Solr :=
  let rid := resource_id data_dict in
  let core_name := core_name_of data_dict in
  conn <- connect core_name connection ;;
  conn <-
    match conn with
    | None =>
        ds <- request (DatastoreSearch rid 0) ;;
        ds_fields <- match ds_fields ds with
                     | Some l => ret l
                     | None => raise (KeyError "fields")
                     end ;;
        let create_dict :=
          {| resource_id := rid;
             dd_fields :=
               Some (filter
                       (fun f => negb (str_in (id f) default_solr_fields))
                       ds_fields);
             records := None;
             filters := None |} in
        create create_dict None ;;
        _make_connection core_name
    | Some c => ret (Some c)
    end ;;
  match conn with
  | None =>
      msg <- lift (py_format "Failed to index records for %s"
                             [core_name]) ;;
      raise (DatastoreSearchException (gettext msg))
  | Some conn => ret conn
  end.

Definition upsert (data_dict : DataDict) (connection : option Solr)
    : M pyobject :=
  let core_name := core_name_of data_dict in
  conn <- upsert_connect data_dict connection ;;
  records <- match records data_dict with
             | Some l => ret l
             | None => raise (KeyError "records")
             end ;;
  if truthy records
  then
    for_each records (add_record conn core_name) ;;
    request (Commit conn false) ;;
    ret PyNone
  else ret PyNone.

(** The body of the loop of [delete] over [filters.items()]. *)
Definition delete_filter (conn : Solr) (core_name : string)
    (item : string * value) : M unit :=
  let (key, value) := item in
  errmsg <- lift (py_format
                    (gettext "Could not delete records %s,%s in SOLR core %s")
                    [key; py_str value; core_name]) ;;
  try_except_SolrError
    (request (Delete conn (key ++ ":" ++ py_str value) false) ;; ret tt)
    (fun arg => raise (DatastoreSearchException (shown errmsg arg))).

Definition delete (data_dict : DataDict) (connection : option Solr)
    : M pyobject :=
  let core_name := core_name_of data_dict in
  conn <- connect core_name connection ;;
  match conn with
  | None => ret PyNone
  | Some conn =>
      let filters := match filters data_dict with
                     | Some d => d
                     | None => []
                     end in
      if negb (truthy filters)
      then
        errmsg <- lift (py_format (gettext "Could not delete SOLR core %s")
                                  [core_name]) ;;
        try_except_SolrError
          (request (Delete conn "*:*" false) ;; ret tt)
          (fun arg => raise (DatastoreSearchException (shown errmsg arg))) ;;
        request (Commit conn false) ;;
        resp <- _send_api_request "POST"
                  ("cores/" ++ core_name ++ "/unload") None ;;
        match error resp with
        | Some err =>
            raise (DatastoreSearchException
                     (shown errmsg (match err with
                                    | Some msg => msg
                                    | None => errmsg
                                    end)))
        | None => ret PyNone
        end
      else
        for_each filters (delete_filter conn core_name) ;;
        ret PyNone
  end.

End DatastoreSolrBackend.

Arguments _make_connection {World} respond cfg core_name.
Arguments create {World} respond cfg gettext data_dict connection.
Arguments upsert {World} respond cfg gettext data_dict connection.
Arguments delete {World} respond cfg gettext data_dict connection.

(** ** Worlds to run the methods in *)

(** A world that answers from a script, one answer per request whatever the
    request is, and with [dflt] once the script is used up. *)
Definition scripted (dflt : reply) (c : call) (script : list reply)
    : reply * list reply :=
  match script with
  | [] => (dflt, [])
  | r :: rest => (r, rest)
  end.

Definition json (st : option string) (fs : option (list solr_field))
    (err : option (option string)) : reply :=
  Returned {| status := st; fields := fs; error := err; ds_fields := None |}.

(** Answers of a healthy server: a ping, a schema, an accepted write. *)
Definition pong : reply := json (Some "OK") None None.
Definition schema_is (fs : list solr_field) : reply := json None (Some fs) None.
Definition accepted : reply := json None None None.
Definition refused (msg : string) : reply := json None None (Some (Some msg)).

(** The answer of datastore_search with the fields of the table. *)
Definition ds_result (fs : list Field) : reply :=
  Returned {| status := None; fields := None; error := None;
              ds_fields := Some fs |}.

(** A world that gives the same answer to every request. *)
Definition always (r : reply) (c : call) (w : unit) : reply * unit := (r, tt).

Definition test_cfg : Config :=
  {| url := "http://solr"; prefix := "ds_"; debug := false |}.

Definition no_translation (s : string) : string := s.

Definition fields_only (rid : string) (fs : list Field) : DataDict :=
  {| resource_id := Some rid; dd_fields := Some fs;
     records := None; filters := None |}.

Definition id_field : solr_field :=
  [("name", VStr "_id"); ("type", VStr "string");
   ("stored", VBool true); ("indexed", VBool true)].

(** ** Vocabulary of the statements *)

(** The schema-mutation requests among the recorded ones. *)
Definition is_schema_post (ev : event) : bool :=
  match fst ev with SchemaPost _ _ _ => true | _ => false end.

Definition schema_posts (tr : list event) : list event :=
  filter is_schema_post tr.

(** The document-level requests (add, delete by query, commit). *)
Definition is_doc_call (ev : event) : bool :=
  match fst ev with
  | Add _ _ _ | Delete _ _ _ | Commit _ _ => true
  | _ => false
  end.

Definition is_commit (ev : event) : bool :=
  match fst ev with Commit _ _ => true | _ => false end.

(** The name a field is listed under: [VStr id] for a DataStore column. *)
Definition in_defaults (name : value) : Prop :=
  value_in name default_solr_fields = true.

Definition outcome (failure : option exn) : result unit :=
  match failure with None => Ok tt | Some e => Raise e end.

(** [applied mk fail plan sent failure]: one request [mk x] was made for
    each item [x] of [plan], one at a time and in order; the first whose
    answer is a failure according to [fail] is the last one made, and its
    error is [failure]; if none fails a request was made for every item of
    [plan] and [failure] is [None]. *)
Inductive applied {A : Type} (mk : A -> call)
    (fail : A -> reply -> option exn)
    : list A -> list event -> option exn -> Prop :=
| applied_all : applied mk fail [] [] None
| applied_next x r plan sent failure :
    fail x r = None ->
    applied mk fail plan sent failure ->
    applied mk fail (x :: plan) ((mk x, r) :: sent) failure
| applied_stop x r e plan :
    fail x r = Some e ->
    applied mk fail (x :: plan) [(mk x, r)] (Some e).

Section Answered.
Variable World : Type.
Variable respond : call -> World -> reply * World.

(** [answered w evs w']: from [w], the requests of [evs] sent one after
    the other get the recorded answers and leave the world at [w']. *)
Inductive answered : World -> list event -> World -> Prop :=
| answered_nil w : answered w [] w
| answered_cons w c r w' evs w'' :
    respond c w = (r, w') ->
    answered w' evs w'' ->
    answered w ((c, r) :: evs) w''.

(** A method is [sound] when its trace is what was really exchanged and
    its final world is the one those exchanges lead to. *)
Definition sound {A} (m : M World A) : Prop :=
  forall w, answered w (trace (m w)) (final (m w)).

(** A method [avoids] the requests that satisfy [p] when it makes none of
    them; it is [quiet] when it makes no schema-mutation request. *)
Definition avoids (p : event -> bool) {A} (m : M World A) : Prop :=
  forall w, filter p (trace (m w)) = [].

Definition quiet {A} (m : M World A) : Prop := avoids is_schema_post m.
End Answered.

(** The message of a schema write that failed, before translation. *)
Definition field_errmsg (cmd : schema_cmd) (name core_name : string)
    : string :=
  match cmd with
  | AddField =>
      "Could not add field " ++ name ++ " to SOLR Schema " ++ core_name
  | ReplaceField =>
      "Could not update field " ++ name ++ " on SOLR Schema " ++ core_name
  | DeleteField =>
      "Could not delete field " ++ name ++ " from SOLR Schema " ++ core_name
  end.

(** The error a write surfaces for answer [r], [errmsg] being the message of
    the operation: none when the answer is a JSON object without [error]. *)
Definition write_failure (cfg : Config) (errmsg : string) (r : reply)
    : option exn :=
  match r with
  | Raised (SolrError arg) =>
      Some (DatastoreSearchException (shown cfg errmsg arg))
  | Raised e => Some e
  | Returned resp =>
      match error resp with
      | Some err =>
          Some (DatastoreSearchException
                  (shown cfg errmsg (match err with
                                     | Some msg => msg
                                     | None => errmsg
                                     end)))
      | None => None
      end
  end.

(** One step of a diff: the command and the field it is about. *)
Definition step : Type := (schema_cmd * solr_field)%type.

Definition post (conn : Solr) (s : step) : call :=
  SchemaPost conn (fst s) (snd s).

(** The error of a schema write, which names the field and the core. *)
Definition field_failure (cfg : Config) (gettext : string -> string)
    (core_name : string) (s : step) (r : reply) : option exn :=
  match dict_get "name" (snd s) with
  | Some name =>
      write_failure cfg
        (gettext (field_errmsg (fst s) (py_str name) core_name)) r
  | None => Some (KeyError "name")
  end.

(** The steps that carry out a diff, in the order of [create]. *)
Definition plan (d : SchemaDiff) : list step :=
  (map (pair AddField) (to_add d)
   ++ map (pair ReplaceField) (to_update d)
   ++ map (pair DeleteField) (to_remove d))%list.

(** The fields [create] is asked for. *)
Definition desired (data_dict : DataDict) : list Field :=
  match dd_fields data_dict with Some l => l | None => [] end.

(** A JSON object with a [name]. *)
Definition named (f : solr_field) : Prop :=
  exists name, dict_get "name" f = Some name.

(** Every entry of [keyed_solr_fields] is a field of the schema that was
    read, stored under its own name, and that name is not a default one. *)
Definition keyed_from (solr_fields : list solr_field)
    (keyed : dict value solr_field) : Prop :=
  forall name f,
    In (name, f) keyed ->
    dict_get "name" f = Some name
    /\ value_in name default_solr_fields = false
    /\ In f solr_fields.

(** The ids collected by the loop over the DataStore fields. *)
Definition wanted_ids (ds : list Field) : list string :=
  filter (fun s => negb (str_in s default_solr_fields)) (map id ds).

(** The names that the delete-field requests of a trace carry. *)
Definition removed_names (tr : list event) : list value :=
  flat_map (fun ev =>
              match fst ev with
              | SchemaPost _ DeleteField f =>
                  match dict_get "name" f with
                  | Some name => [name]
                  | None => []
                  end
              | _ => []
              end) tr.

(** The desired fields equal the live schema modulo the default fields:
    every live field that is not a default one has a desired field of its
    name whose mapped type is the live type, and every desired field that is
    not a default one is in the live schema. *)
Definition same_modulo_defaults (solr_fields : list solr_field)
    (ds : list Field) : Prop :=
  (forall live name,
      In live solr_fields ->
      dict_get "name" live = Some name ->
      ~ in_defaults name ->
      exists x t,
        In x ds /\ name = VStr (id x)
        /\ map_type (type x) = Ok t
        /\ dict_get "type" live = Some (VStr t))
  /\ (forall x,
        In x ds ->
        str_in (id x) default_solr_fields = false ->
        exists live,
          In live solr_fields /\ dict_get "name" live = Some (VStr (id x))).

(** The error of adding a record: only an exception is a failure. *)
Definition add_failure (cfg : Config) (gettext : string -> string)
    (core_name : string) (r : document) (rep : reply) : option exn :=
  match rep with
  | Raised (SolrError arg) =>
      Some (DatastoreSearchException
              (shown cfg
                 (gettext ("Failed to index records for " ++ core_name))
                 arg))
  | Raised e => Some e
  | Returned _ => None
  end.

(** The query of one filter, and the message of its deletion. *)
Definition filter_query (item : string * value) : string :=
  fst item ++ ":" ++ py_str (snd item).

Definition delete_errmsg (gettext : string -> string) (core_name : string)
    (item : string * value) : result string :=
  py_format (gettext "Could not delete records %s,%s in SOLR core %s")
            [fst item; py_str (snd item); core_name].

Definition delete_failure (cfg : Config) (gettext : string -> string)
    (core_name : string) (item : string * value) (rep : reply)
    : option exn :=
  match delete_errmsg gettext core_name item with
  | Raise e => Some e
  | Ok errmsg =>
      match rep with
      | Raised (SolrError arg) =>
          Some (DatastoreSearchException (shown cfg errmsg arg))
      | Raised e => Some e
      | Returned _ => None
      end
  end.

(** ** Sample data *)

Definition conn_r : Solr := "http://solr/solr/ds_r".

Definition live_field (name type : string) : solr_field :=
  [("name", VStr name); ("type", VStr type); ("stored", VBool true);
   ("indexed", VBool true); ("multiValued", VBool false)].

Definition col (name type : string) : Field := {| id := name; type := type |}.

(** ** Vocabulary for the rest of the backend *)

(** A ping answer that [_make_connection] takes for a live core. *)
Definition ping_ok (r : reply) : bool :=
  match r with
  | Returned x =>
      match status x with
      | Some s => String.eqb s "OK"
      | None => false
      end
  | Raised _ => false
  end.

(** The URL of the connection that [_make_connection] builds. *)
Definition core_url (cfg : Config) (core_name : string) : Solr :=
  url cfg ++ "/solr/" ++ core_name.

(** The body of the request that creates a core. *)
Definition create_body (core_name : string) : list (dict string value) :=
  [[("name", VStr core_name); ("configSet", VStr "datastore_resource")]].


(** Requests to the API v2. *)
Definition is_api (ev : event) : bool :=
  match fst ev with ApiPost _ _ | ApiGet _ => true | _ => false end.

(** Requests that [delete] alone may make: deletion of documents and the
    unloading of a core. *)
Definition is_delete (ev : event) : bool :=
  match fst ev with Delete _ _ _ => true | _ => false end.

Definition is_add (ev : event) : bool :=
  match fst ev with Add _ _ _ => true | _ => false end.

(** [name] is the name of a field of the schema that is not a default
    field: the names that [keyed_solr_fields] has for keys. *)
Definition is_live (solr_fields : list solr_field) (name : value) : bool :=
  existsb (fun f =>
             match dict_get "name" f with
             | Some n => value_eqb n name && negb (value_in n default_solr_fields)
             | None => false
             end) solr_fields.

(** The SOLR type of a DataStore type, the empty string when it has none. *)
Definition mapped (t : string) : string :=
  match dict_get t field_type_map with Some x => x | None => "" end.

(** The last field of the schema listed under [name]. *)
Definition last_named (solr_fields : list solr_field) (name : value)
    : option solr_field :=
  find (fun f =>
          match dict_get "name" f with
          | Some n => value_eqb n name
          | None => false
          end) (rev solr_fields).

(** The transport never raises the backend's own exception. *)
Definition transport_errors_only {World : Type}
    (respond : call -> World -> reply * World) : Prop :=
  forall c w msg,
    fst (respond c w) <> Raised (DatastoreSearchException msg).

(** Requests that are no part of [create]: anything but a ping, the
    creation of a core, and a read or a write of the schema. *)
Definition outside_create (ev : event) : bool :=
  match fst ev with
  | Ping _ | SchemaFields _ | SchemaPost _ _ _ | ApiPost _ (Some _) => false
  | _ => true
  end.

(** Requests that are no part of [delete]: anything but a ping, a deletion
    by query, a commit and a POST to the API without a body. *)
Definition outside_delete (ev : event) : bool :=
  match fst ev with
  | Ping _ | Delete _ _ _ | Commit _ _ | ApiPost _ None => false
  | _ => true
  end.

(** Requests that destroy: a deletion by query, or a request to the API
    other than the creation of a core. *)
Definition destroys (ev : event) : bool :=
  match fst ev with
  | Delete _ _ _ | ApiPost _ None | ApiGet _ => true
  | _ => false
  end.

(** Requests that are not a read or a write of the schema through [conn]. *)
Definition off_connection (conn : Solr) (ev : event) : bool :=
  match fst ev with
  | SchemaFields c | SchemaPost c _ _ => negb (String.eqb c conn)
  | _ => true
  end.

(** The types of fields that SOLR is asked for. *)
Definition solr_types : list string :=
  ["int"; "float"; "double"; "text"; "binary"; "date"; "boolean"].

(** Calls of the action datastore_search. *)
Definition is_datastore_search (ev : event) : bool :=
  match fst ev with DatastoreSearch _ _ => true | _ => false end.

(** [raises_only P m]: every exception that [m] may raise satisfies [P]. *)
Definition raises_only {World : Type} (P : exn -> Prop) {A : Type}
    (m : M World A) : Prop :=
  forall w e, res (m w) = Raise e -> P e.

(** [m] may return [a]. *)
Definition returns {World A : Type} (m : M World A) (a : A) : Prop :=
  exists w, res (m w) = Ok a.

(** The message of a DatastoreSearchException is at most MAX_ERR_LEN long. *)
Definition short_message (e : exn) : Prop :=
  forall msg, e = DatastoreSearchException msg ->
              String.length msg <= MAX_ERR_LEN.

(** The message of a DatastoreSearchException is one that [delete] builds
    itself, for the core or for one of the filters. *)
Definition generic_delete_message (gettext : string -> string)
    (core_name : string) (fl : dict string value) (e : exn) : Prop :=
  forall msg,
    e = DatastoreSearchException msg ->
    py_format (gettext "Could not delete SOLR core %s") [core_name] = Ok msg
    \/ exists item, In item fl /\ delete_errmsg gettext core_name item = Ok msg.

(** * Properties *)

(** ** Keys and dictionaries *)

Lemma value_eqb_eq (a b : value) : value_eqb a b = true <-> a = b.
Proof.
  destruct a as [s|x], b as [t|y]; simpl; split; intro E;
    try discriminate; try congruence.
  - apply String.eqb_eq in E; congruence.
  - injection E as ->; apply String.eqb_refl.
  - apply Bool.eqb_prop in E; congruence.
  - injection E as ->; apply Bool.eqb_reflx.
Qed.

#[export] Instance string_KeyOk : KeyOk string.
Proof. intros x y; apply String.eqb_eq. Qed.

#[export] Instance value_KeyOk : KeyOk value.
Proof. intros x y; apply value_eqb_eq. Qed.

Section DictFacts.
Context {K V : Type} `{KeyOk K}.

Lemma key_eqb_refl (k : K) : key_eqb k k = true.
Proof. now apply key_eqb_eq. Qed.

Lemma key_eqb_neq (k k' : K) : k <> k' -> key_eqb k k' = false.
Proof.
  intro N; destruct (key_eqb k k') eqn:E; [|reflexivity].
  apply key_eqb_eq in E; contradiction.
Qed.

Lemma dict_get_set_same (k : K) (v : V) (d : dict K V) :
  dict_get k (dict_set k v d) = Some v.
Proof.
  induction d as [|[k' v'] d IH]; simpl.
  - now rewrite key_eqb_refl.
  - destruct (key_eqb k k') eqn:E; simpl; rewrite E; auto.
Qed.

Lemma dict_get_set_other (k k0 : K) (v : V) (d : dict K V) :
  k0 <> k -> dict_get k0 (dict_set k v d) = dict_get k0 d.
Proof.
  intro N; induction d as [|[k' v'] d IH]; simpl.
  - rewrite key_eqb_neq; auto.
  - destruct (key_eqb k k') eqn:E; simpl.
    + apply key_eqb_eq in E; subst k'.
      rewrite key_eqb_neq; auto.
    + destruct (key_eqb k0 k'); auto.
Qed.

Lemma dict_keys_set_present (k : K) (v : V) (d : dict K V) :
  dict_mem k d = true -> dict_keys (dict_set k v d) = dict_keys d.
Proof.
  unfold dict_mem, dict_keys.
  induction d as [|[k' v'] d IH]; simpl; [discriminate|].
  destruct (key_eqb k k') eqn:E; simpl; intro P; [reflexivity|].
  now rewrite IH.
Qed.

Lemma dict_get_in (k : K) (v : V) (d : dict K V) :
  dict_get k d = Some v -> In (k, v) d.
Proof.
  induction d as [|[k' v'] d IH]; simpl; [discriminate|].
  destruct (key_eqb k k') eqn:E; intro P.
  - apply key_eqb_eq in E; left; congruence.
  - right; auto.
Qed.

Lemma dict_keys_get (k : K) (d : dict K V) :
  In k (dict_keys d) -> exists v, dict_get k d = Some v.
Proof.
  unfold dict_keys.
  induction d as [|[k' v'] d IH]; simpl; [contradiction|].
  intros [E|I].
  - subst k'; rewrite key_eqb_refl; eauto.
  - destruct (key_eqb k k'); eauto.
Qed.
End DictFacts.

Lemma value_in_spec (v : value) (l : list string) :
  value_in v l = true <-> exists s, In s l /\ v = VStr s.
Proof.
  unfold value_in; rewrite existsb_exists.
  split; intros (s & I & E); exists s; split; auto; now apply value_eqb_eq.
Qed.

Lemma value_in_str (s : string) (l : list string) :
  value_in (VStr s) l = str_in s l.
Proof. induction l; simpl; auto. Qed.

Lemma str_in_spec (s : string) (l : list string) :
  str_in s l = true <-> In s l.
Proof.
  unfold str_in; rewrite existsb_exists; split.
  - intros (x & I & E); apply String.eqb_eq in E; congruence.
  - intro I; exists s; split; auto; apply String.eqb_refl.
Qed.

Arguments value_eqb a b : simpl never.
Arguments value_in v l : simpl never.
Arguments str_in s l : simpl never.

(** ** The monad: running a sequence, and soundness of the trace *)

Section MonadFacts.
Variable World : Type.
Variable respond : call -> World -> reply * World.

Lemma bind_ok {A B} (m : M World A) (k : A -> M World B) w a evs w' :
  m w = Out (Ok a) evs w' ->
  bind m k w
  = Out (res (k a w')) (evs ++ trace (k a w'))%list (final (k a w')).
Proof. intro E; unfold bind; rewrite E; reflexivity. Qed.

Lemma bind_raise {A B} (m : M World A) (k : A -> M World B) w e evs w' :
  m w = Out (Raise e) evs w' ->
  bind m k w = Out (Raise e) evs w'.
Proof. intro E; unfold bind; rewrite E; reflexivity. Qed.

Lemma bind_res_ok {A B} (m : M World A) (k : A -> M World B) w a :
  res (m w) = Ok a ->
  bind m k w
  = Out (res (k a (final (m w))))
        (trace (m w) ++ trace (k a (final (m w))))%list
        (final (k a (final (m w)))).
Proof. intro E; unfold bind; rewrite E; reflexivity. Qed.

Lemma bind_res_raise {A B} (m : M World A) (k : A -> M World B) w e :
  res (m w) = Raise e ->
  bind m k w = Out (Raise e) (trace (m w)) (final (m w)).
Proof. intro E; unfold bind; rewrite E; reflexivity. Qed.

Lemma answered_app w evs w' evs' w'' :
  answered respond w evs w' ->
  answered respond w' evs' w'' ->
  answered respond w (evs ++ evs')%list w''.
Proof.
  induction 1 as [|w c r w1 evs w2 R _ IH]; simpl; auto.
  intro T; econstructor; eauto.
Qed.

Lemma answered_one w c :
  answered respond w [(c, fst (respond c w))] (snd (respond c w)).
Proof.
  econstructor; [|constructor].
  now destruct (respond c w).
Qed.

Lemma sound_ret {A} (a : A) : sound respond (ret a).
Proof. intro w; constructor. Qed.

Lemma sound_raise {A} e : sound respond (@raise World A e).
Proof. intro w; constructor. Qed.

Lemma sound_lift {A} (r : result A) : sound respond (lift r).
Proof. destruct r; [apply sound_ret | apply sound_raise]. Qed.

Lemma sound_request c : sound respond (request respond c).
Proof.
  intro w; unfold request.
  destruct (respond c w) as [r w'] eqn:E.
  destruct r; simpl; (econstructor; [eassumption | constructor]).
Qed.

Lemma sound_bind {A B} (m : M World A) (k : A -> M World B) :
  sound respond m -> (forall a, sound respond (k a)) ->
  sound respond (bind m k).
Proof.
  intros Sm Sk w; unfold bind.
  specialize (Sm w); destruct (res (m w)); simpl; auto.
  eapply answered_app; eauto. apply Sk.
Qed.

Lemma sound_try {A} (m : M World A) h :
  sound respond m -> (forall arg, sound respond (h arg)) ->
  sound respond (try_except_SolrError m h).
Proof.
  intros Sm Sh w; unfold try_except_SolrError.
  specialize (Sm w); destruct (res (m w)) as [a|[]]; simpl; auto.
  eapply answered_app; eauto. apply Sh.
Qed.

Lemma sound_for_each {A} (l : list A) body :
  (forall x, sound respond (body x)) ->
  sound respond (for_each l body).
Proof.
  intro Sb; induction l; simpl.
  - apply sound_ret.
  - apply sound_bind; auto.
Qed.

Lemma schema_posts_app (a b : list event) :
  schema_posts (a ++ b) = (schema_posts a ++ schema_posts b)%list.
Proof. apply filter_app. Qed.

Section Avoids.
Variable p : event -> bool.

Lemma avoids_ret {A} (a : A) : avoids p (@ret World A a).
Proof. intro w; reflexivity. Qed.

Lemma avoids_raise {A} e : avoids p (@raise World A e).
Proof. intro w; reflexivity. Qed.

Lemma avoids_lift {A} (r : result A) : avoids p (@lift World A r).
Proof. destruct r; [apply avoids_ret | apply avoids_raise]. Qed.

Lemma avoids_request c :
  (forall r, p (c, r) = false) -> avoids p (request respond c).
Proof.
  intros N w; unfold request.
  destruct (respond c w) as [[e|r] w']; simpl; now rewrite N.
Qed.

Lemma avoids_bind {A B} (m : M World A) (k : A -> M World B) :
  avoids p m -> (forall a, avoids p (k a)) -> avoids p (bind m k).
Proof.
  intros Qm Qk w; unfold bind.
  specialize (Qm w); destruct (res (m w)); simpl; auto.
  rewrite filter_app, Qm, Qk; reflexivity.
Qed.

Lemma avoids_try {A} (m : M World A) (h : string -> M World A) :
  avoids p m -> (forall arg, avoids p (h arg)) ->
  avoids p (try_except_SolrError m h).
Proof.
  intros Qm Qh w; unfold try_except_SolrError.
  specialize (Qm w); destruct (res (m w)) as [a|[]]; simpl; auto.
  rewrite filter_app, Qm, Qh; reflexivity.
Qed.

Lemma avoids_for_each {A} (l : list A) (body : A -> M World unit) :
  (forall x, avoids p (body x)) -> avoids p (for_each l body).
Proof.
  intro Qb; induction l; simpl.
  - apply avoids_ret.
  - apply avoids_bind; auto.
Qed.
End Avoids.
End MonadFacts.

(** Going through the structure of a method, for a property that every
    building block of the monad preserves. *)
Ltac through_sound :=
  repeat first
    [ apply sound_ret | apply sound_raise | apply sound_lift
    | apply sound_request
    | apply sound_bind; [|intro]
    | apply sound_try; [|intro]
    | apply sound_for_each; intro
    | match goal with
      | |- sound _ (match ?x with _ => _ end) => destruct x
      end ].

Ltac through_avoids :=
  repeat first
    [ apply avoids_ret | apply avoids_raise | apply avoids_lift
    | apply avoids_request; intro; reflexivity
    | apply avoids_bind; [|intro]
    | apply avoids_try; [|intro]
    | apply avoids_for_each; intro
    | match goal with
      | |- avoids _ (match ?x with _ => _ end) => destruct x
      end ].

(** ** Requests made one at a time until one fails *)

Section Applied.
Context {A : Type} (mk : A -> call) (fail : A -> reply -> option exn).

Lemma applied_app_ok p1 s1 p2 s2 failure :
  applied mk fail p1 s1 None ->
  applied mk fail p2 s2 failure ->
  applied mk fail (p1 ++ p2)%list (s1 ++ s2)%list failure.
Proof.
  intro A1; remember None as n eqn:En.
  induction A1; intro A2; simpl; auto; try discriminate.
  constructor; auto.
Qed.

Lemma applied_app_stop p1 s1 p2 e :
  applied mk fail p1 s1 (Some e) ->
  applied mk fail (p1 ++ p2)%list s1 (Some e).
Proof.
  intro A1; remember (Some e) as n eqn:En.
  induction A1; simpl; try discriminate.
  - constructor; auto.
  - injection En as ->; now constructor.
Qed.

(** What was sent is an initial part of the plan, and all of it when
    nothing failed. *)
Lemma applied_prefix p s failure :
  applied mk fail p s failure ->
  map fst s = map mk (firstn (length s) p)
  /\ (failure = None -> map fst s = map mk p).
Proof.
  induction 1 as [|x r p s f F Ap [IH1 IH2]|x r e p F]; simpl.
  - auto.
  - split; [now rewrite <- IH1 | intro; now rewrite IH2].
  - split; [reflexivity | discriminate].
Qed.

(** Every request but a failing last one was answered without failure. *)
Lemma applied_failure_last p s failure :
  applied mk fail p s failure ->
  match failure with
  | None => length s = length p
  | Some e =>
      exists before x r after,
        p = (before ++ x :: after)%list
        /\ map fst s = map mk (before ++ [x])%list
        /\ last s (mk x, r) = (mk x, r)
        /\ fail x r = Some e
  end.
Proof.
  induction 1 as [|x r p s f F Ap IH|x r e p F]; simpl.
  - reflexivity.
  - destruct f as [e|].
    + destruct IH as (before & y & ry & after & -> & M & L & Fy).
      exists (x :: before), y, ry, after; repeat split; auto.
      * simpl; now rewrite M.
      * destruct s; [destruct before; discriminate | exact L].
    + now rewrite IH.
  - exists [], x, r, p; repeat split; auto.
Qed.

Lemma applied_In p s failure ev :
  applied mk fail p s failure ->
  In ev s -> exists x, In x p /\ fst ev = mk x.
Proof.
  induction 1 as [|x r p s f F Ap IH|x r e p F]; simpl.
  - contradiction.
  - intros [<-|I]; [exists x; auto|].
    destruct (IH I) as (y & Iy & E); exists y; auto.
  - intros [<-|[]]; exists x; auto.
Qed.
End Applied.

Section Loops.
Variable World : Type.
Variable respond : call -> World -> reply * World.

(** A loop whose body makes exactly one request per element, and fails
    according to [fail], applies the requests in the sense of [applied]. *)
Lemma for_each_applied {A B} (mk : A -> call)
    (fail : A -> reply -> option exn) (item : B -> A)
    (body : B -> M World unit) (P : B -> Prop) :
  (forall x w, P x ->
     body x w
     = Out (outcome (fail (item x) (fst (respond (mk (item x)) w))))
           [(mk (item x), fst (respond (mk (item x)) w))]
           (snd (respond (mk (item x)) w))) ->
  forall l w, Forall P l ->
    exists failure,
      applied mk fail (map item l) (trace (for_each l body w)) failure
      /\ res (for_each l body w) = outcome failure.
Proof.
  intros Hbody l; induction l as [|x l IH]; intros w HP; simpl.
  - exists None; split; [constructor | reflexivity].
  - inversion HP as [|? ? Px Pl]; subst.
    unfold bind; rewrite (Hbody x w Px); simpl.
    destruct (fail (item x) (fst (respond (mk (item x)) w)))
      as [e|] eqn:F; simpl.
    + exists (Some e); split; [now constructor | reflexivity].
    + destruct (IH (snd (respond (mk (item x)) w)) Pl) as (f & Ap & R).
      exists f; split; [now constructor | assumption].
Qed.
End Loops.

(** ** Messages *)

Lemma append_empty_r (s : string) : s ++ "" = s.
Proof. induction s; simpl; congruence. Qed.

Lemma format_field_errmsg (name core_name : string) :
  py_format "Could not add field %s to SOLR Schema %s" [name; core_name]
  = Ok (field_errmsg AddField name core_name)
  /\ py_format "Could not update field %s on SOLR Schema %s"
       [name; core_name]
     = Ok (field_errmsg ReplaceField name core_name)
  /\ py_format "Could not delete field %s from SOLR Schema %s"
       [name; core_name]
     = Ok (field_errmsg DeleteField name core_name).
Proof.
  repeat split; simpl; rewrite append_empty_r; reflexivity.
Qed.

(** ** Applying a diff *)

Section ApplyDiff.
Variable World : Type.
Variable respond : call -> World -> reply * World.
Variable cfg : Config.
Variable gettext : string -> string.

Lemma post_field_run conn cmd template core_name f w :
  (forall name, py_format template [name; core_name]
                = Ok (field_errmsg cmd name core_name)) ->
  named f ->
  post_field respond cfg gettext conn cmd template core_name f w
  = Out (outcome (field_failure cfg gettext core_name (cmd, f)
                    (fst (respond (post conn (cmd, f)) w))))
        [(post conn (cmd, f), fst (respond (post conn (cmd, f)) w))]
        (snd (respond (post conn (cmd, f)) w)).
Proof.
  intros Fmt (name & N).
  unfold post_field, bind, lift, getitem, try_except_SolrError, request.
  unfold field_failure, post; simpl.
  rewrite N; simpl. rewrite Fmt; simpl.
  destruct (respond (SchemaPost conn cmd f) w) as [r w']; simpl.
  destruct r as [e|resp]; simpl.
  - destruct e; reflexivity.
  - destruct (error resp) as [err|]; reflexivity.
Qed.

Lemma post_loop_applied conn cmd template core_name l w :
  (forall name, py_format template [name; core_name]
                = Ok (field_errmsg cmd name core_name)) ->
  Forall named l ->
  exists failure,
    applied (post conn) (field_failure cfg gettext core_name)
      (map (pair cmd) l)
      (trace (for_each l
                (post_field respond cfg gettext conn cmd template core_name)
                w))
      failure
    /\ res (for_each l
              (post_field respond cfg gettext conn cmd template core_name)
              w)
       = outcome failure.
Proof.
  intros Fmt Hl.
  apply for_each_applied with (respond := respond) (P := named); auto.
  intros x w0 Px; now apply post_field_run.
Qed.

Lemma apply_diff_applied conn core_name d w :
  Forall named (to_add d) ->
  Forall named (to_update d) ->
  Forall named (to_remove d) ->
  exists failure,
    applied (post conn) (field_failure cfg gettext core_name) (plan d)
      (trace (apply_diff respond cfg gettext conn core_name d w)) failure
    /\ res (apply_diff respond cfg gettext conn core_name d w)
       = outcome failure.
Proof.
  intros Ha Hu Hr; unfold apply_diff, plan.
  destruct (post_loop_applied conn AddField
              "Could not add field %s to SOLR Schema %s" core_name w
              (fun n => proj1 (format_field_errmsg n core_name)) Ha)
    as (f1 & A1 & R1).
  destruct f1 as [e|]; simpl in R1.
  { rewrite (bind_res_raise _ _ _ R1); simpl.
    exists (Some e); split; auto. now apply applied_app_stop. }
  rewrite (bind_res_ok _ _ _ R1); simpl.
  set (w1 := final (for_each (to_add d) _ w)).
  destruct (post_loop_applied conn ReplaceField
              "Could not update field %s on SOLR Schema %s" core_name w1
              (fun n => proj1 (proj2 (format_field_errmsg n core_name))) Hu)
    as (f2 & A2 & R2).
  destruct f2 as [e|]; simpl in R2.
  { rewrite (bind_res_raise _ _ _ R2); simpl.
    exists (Some e); split; auto.
    apply applied_app_ok; auto. now apply applied_app_stop. }
  rewrite (bind_res_ok _ _ _ R2); simpl.
  set (w2 := final (for_each (to_update d) _ w1)).
  destruct (post_loop_applied conn DeleteField
              "Could not delete field %s from SOLR Schema %s" core_name w2
              (fun n => proj2 (proj2 (format_field_errmsg n core_name))) Hr)
    as (f3 & A3 & R3).
  exists f3; split; auto.
  repeat (apply applied_app_ok; auto).
Qed.
End ApplyDiff.

(** ** The diff *)

Lemma dict_set_in {K V : Type} `{KeyOk K} (k : K) (v : V) (d : dict K V) k0 v0 :
  In (k0, v0) (dict_set k v d) -> (k0 = k /\ v0 = v) \/ In (k0, v0) d.
Proof.
  induction d as [|[k' v'] d IH]; simpl.
  - intros [E|[]]; left; split; congruence.
  - destruct (key_eqb k k') eqn:E; simpl.
    + apply key_eqb_eq in E; subst k'.
      intros [P|I]; [left; split; congruence | right; right; exact I].
    + intros [P|I]; [right; left; exact P|].
      destruct (IH I) as [L|R]; [left; exact L | right; right; exact R].
Qed.

Lemma dict_mem_set {K V : Type} `{KeyOk K} (k : K) (v : V) (d : dict K V) k0 :
  dict_mem k0 (dict_set k v d) = true <-> k0 = k \/ dict_mem k0 d = true.
Proof.
  unfold dict_mem.
  destruct (key_eqb k0 k) eqn:E.
  - apply key_eqb_eq in E; subst k0.
    rewrite dict_get_set_same; tauto.
  - assert (N : k0 <> k) by (intro X; apply key_eqb_eq in X; congruence).
    rewrite dict_get_set_other by exact N; tauto.
Qed.

Lemma key_solr_fields_from all fs keyed0 keyed :
  keyed_from all keyed0 ->
  incl fs all ->
  key_solr_fields fs keyed0 = Ok keyed ->
  keyed_from all keyed.
Proof.
  revert keyed0; induction fs as [|f fs IH]; simpl; intros keyed0 K0 I E.
  - injection E as <-; exact K0.
  - assert (Ifs : incl fs all) by (intros x Hx; apply I; now right).
    unfold getitem in E.
    destruct (dict_get "name" f) as [name|] eqn:N; [|discriminate].
    destruct (value_in name default_solr_fields) eqn:D.
    + eapply IH; eauto.
    + eapply IH; [|exact Ifs|exact E].
      intros n g Hin. apply dict_set_in in Hin as [[-> ->]|Hin].
      * repeat split; auto. apply I; now left.
      * now apply K0.
Qed.

(** Conversely every schema field with a name that is not a default one has
    an entry, provided the loop did not fail. *)
Lemma key_solr_fields_mem fs keyed0 keyed :
  key_solr_fields fs keyed0 = Ok keyed ->
  forall name,
    ((exists f, In f fs /\ dict_get "name" f = Some name
                /\ value_in name default_solr_fields = false)
     \/ dict_mem name keyed0 = true)
    -> dict_mem name keyed = true.
Proof.
  revert keyed0; induction fs as [|f fs IH]; simpl; intros keyed0 E name P.
  - injection E as <-. destruct P as [(f & [] & _)|P]; exact P.
  - unfold getitem in E.
    destruct (dict_get "name" f) as [n|] eqn:N; [|discriminate].
    destruct (value_in n default_solr_fields) eqn:D.
    + apply (IH _ E). destruct P as [(g & [<-|I] & G & Dn)|P].
      * congruence.
      * left; eauto.
      * now right.
    + apply (IH _ E). destruct P as [(g & [<-|I] & G & Dn)|P].
      * right; apply dict_mem_set; left; congruence.
      * left; eauto.
      * right; apply dict_mem_set; now right.
Qed.

Lemma key_solr_fields_keys fs keyed0 keyed :
  key_solr_fields fs keyed0 = Ok keyed ->
  forall name,
    dict_mem name keyed = true ->
    (exists f, In f fs /\ dict_get "name" f = Some name)
    \/ dict_mem name keyed0 = true.
Proof.
  revert keyed0; induction fs as [|f fs IH]; simpl; intros keyed0 E name P.
  - injection E as <-; now right.
  - unfold getitem in E.
    destruct (dict_get "name" f) as [n|] eqn:N; [|discriminate].
    destruct (value_in n default_solr_fields) eqn:D.
    + destruct (IH _ E _ P) as [(g & I & G)|Q]; [left|right]; eauto.
    + destruct (IH _ E _ P) as [(g & I & G)|Q]; [left; eauto|].
      apply dict_mem_set in Q as [->|Q]; [left|right]; eauto.
Qed.

(** Where each entry of the lists built by [classify] comes from. *)
Lemma classify_from keyed ds acc l :
  classify keyed ds acc = Ok l ->
  ds_field_ids l = (ds_field_ids acc ++ wanted_ids ds)%list
  /\ (forall f, In f (new_fields l) ->
        In f (new_fields acc)
        \/ exists d t,
             In d ds /\ dict_get (VStr (id d)) keyed = None
             /\ map_type (type d) = Ok t /\ f = new_field (id d) t)
  /\ (forall f, In f (updated_fields l) ->
        In f (updated_fields acc)
        \/ exists d t live,
             In d ds /\ dict_get (VStr (id d)) keyed = Some live
             /\ map_type (type d) = Ok t
             /\ dict_get "type" live <> Some (VStr t)
             /\ dict_get "type" live <> None
             /\ f = dict_set "type" (VStr t) live).
Proof.
  revert acc; induction ds as [|d ds IH]; intros acc E.
  - simpl in E; injection E as <-. unfold wanted_ids; simpl.
    rewrite app_nil_r; auto.
  - simpl in E. unfold wanted_ids; simpl.
    fold (wanted_ids ds).
    destruct (dict_get (VStr (id d)) keyed) as [live|] eqn:G;
      destruct (map_type (type d)) as [t|] eqn:T; try discriminate.
    + unfold getitem in E.
      destruct (dict_get "type" live) as [lt|] eqn:L; [|discriminate].
      destruct (value_eqb (VStr t) lt) eqn:Q;
        apply IH in E as (Ei & En & Eu); simpl in *;
        (split; [rewrite Ei; destruct (str_in (id d) default_solr_fields);
                 simpl; now rewrite <- ?app_assoc|]);
        (split; [intros f Hf; destruct (En f Hf) as [|(d' & t' & I & R)];
                 [now left | right; exists d', t'; intuition]|]).
      * intros f Hf; destruct (Eu f Hf) as [|(d' & t' & lv & I & R)];
          [now left | right; exists d', t', lv; intuition].
      * intros f Hf; destruct (Eu f Hf) as [Hin|(d' & t' & lv & I & R)].
        -- apply in_app_or in Hin as [Hin|[<-|[]]]; [now left|].
           right; exists d, t, live.
           split; [now left|]. split; [exact G|]. split; [exact T|].
           split; [|split; [congruence | reflexivity]].
           rewrite L; intro X; injection X as ->.
           rewrite (proj2 (value_eqb_eq _ _) eq_refl) in Q; discriminate.
        -- right; exists d', t', lv; intuition.
    + apply IH in E as (Ei & En & Eu); simpl in *.
      split; [rewrite Ei; destruct (str_in (id d) default_solr_fields);
              simpl; now rewrite <- ?app_assoc|].
      split.
      * intros f Hf; destruct (En f Hf) as [Hin|(d' & t' & I & R)].
        -- apply in_app_or in Hin as [Hin|[<-|[]]]; [now left|].
           right; exists d, t; repeat split; auto; now left.
        -- right; exists d', t'; intuition.
      * intros f Hf; destruct (Eu f Hf) as [|(d' & t' & lv & I & R)];
          [now left | right; exists d', t', lv; intuition].
Qed.

Lemma classify_mapped keyed ds acc l :
  classify keyed ds acc = Ok l ->
  forall d, In d ds -> exists t, map_type (type d) = Ok t.
Proof.
  revert acc; induction ds as [|d0 ds IH]; intros acc E d Hd;
    [contradiction|].
  simpl in E.
  destruct (map_type (type d0)) as [t|] eqn:T.
  - destruct Hd as [<-|Hd]; [eauto|].
    destruct (dict_get (VStr (id d0)) keyed) as [live|].
    + destruct (getitem "type" live); [|discriminate].
      destruct (value_eqb (VStr t) a); eapply IH; eauto.
    + eapply IH; eauto.
  - destruct (dict_get (VStr (id d0)) keyed); discriminate.
Qed.

(** What a diff that was computed is made of. *)
Lemma diff_fields_from fs ds d :
  diff_fields fs ds = Ok d ->
  exists keyed,
    key_solr_fields fs [] = Ok keyed
    /\ keyed_from fs keyed
    /\ (forall f, In f (to_add d) ->
          exists x t,
            In x ds /\ dict_get (VStr (id x)) keyed = None
            /\ map_type (type x) = Ok t /\ f = new_field (id x) t)
    /\ (forall f, In f (to_update d) ->
          exists x t live,
            In x ds /\ dict_get (VStr (id x)) keyed = Some live
            /\ map_type (type x) = Ok t
            /\ dict_get "type" live <> Some (VStr t)
            /\ dict_get "type" live <> None
            /\ f = dict_set "type" (VStr t) live)
    /\ to_remove d = removals keyed (wanted_ids ds).
Proof.
  unfold diff_fields.
  destruct (key_solr_fields fs []) as [keyed|] eqn:K; [|discriminate].
  destruct (classify keyed ds no_lists) as [l|] eqn:C; [|discriminate].
  intro E; injection E as <-; simpl.
  exists keyed.
  destruct (classify_from _ _ _ C) as (Ei & En & Eu); simpl in *.
  split; [reflexivity|].
  split.
  { eapply key_solr_fields_from; eauto.
    - intros n f [].
    - apply incl_refl. }
  split; [|split].
  - intros f Hf; destruct (En f Hf) as [[]|R]; exact R.
  - intros f Hf; destruct (Eu f Hf) as [[]|R]; exact R.
  - now rewrite Ei.
Qed.

Lemma diff_fields_mapped fs ds d :
  diff_fields fs ds = Ok d ->
  forall x, In x ds -> exists t, map_type (type x) = Ok t.
Proof.
  unfold diff_fields.
  destruct (key_solr_fields fs []) as [keyed|] eqn:K; [|discriminate].
  destruct (classify keyed ds no_lists) as [l|] eqn:C; [|discriminate].
  intros _; eapply classify_mapped; eauto.
Qed.

Lemma name_neq_type : "name" <> "type".
Proof. discriminate. Qed.

(** Every body of a diff has a name, so that building the message of its
    request cannot fail. *)
Lemma diff_fields_named fs ds d :
  diff_fields fs ds = Ok d ->
  Forall named (to_add d) /\ Forall named (to_update d)
  /\ Forall named (to_remove d).
Proof.
  intro E; destruct (diff_fields_from _ _ E) as (keyed & K & KF & A & U & R).
  repeat split; apply Forall_forall; intros f Hf.
  - destruct (A f Hf) as (x & t & _ & _ & _ & ->).
    exists (VStr (id x)); reflexivity.
  - destruct (U f Hf) as (x & t & live & _ & G & _ & _ & _ & ->).
    apply dict_get_in in G. destruct (KF _ _ G) as (N & _).
    exists (VStr (id x)).
    rewrite dict_get_set_other; [exact N | exact name_neq_type].
  - rewrite R in Hf. unfold removals in Hf.
    apply in_map_iff in Hf as (n & <- & _).
    exists n; reflexivity.
Qed.

(** ** The phases of [create] *)

Section CreateFacts.
Variable World : Type.
Variable respond : call -> World -> reply * World.
Variable cfg : Config.
Variable gettext : string -> string.

Lemma make_connection_avoids p core_name :
  (forall c r, p (Ping c, r) = false) ->
  avoids p (_make_connection respond cfg core_name).
Proof.
  intro N; unfold _make_connection.
  apply avoids_try; [|intro; apply avoids_ret].
  apply avoids_bind; [apply avoids_request; intro; apply N|].
  intro; through_avoids.
Qed.

Lemma connect_avoids p core_name connection :
  (forall c r, p (Ping c, r) = false) ->
  avoids p (connect respond cfg core_name connection).
Proof.
  intro N; destruct connection; simpl;
    [apply avoids_ret | now apply make_connection_avoids].
Qed.

Lemma make_connection_sound core_name :
  sound respond (_make_connection respond cfg core_name).
Proof. unfold _make_connection; through_sound. Qed.

Lemma create_connect_quiet core_name connection :
  quiet (create_connect respond cfg gettext core_name connection).
Proof.
  unfold quiet, create_connect, connect, _send_api_request.
  through_avoids; now apply make_connection_avoids.
Qed.

Lemma create_connect_sound core_name connection :
  sound respond (create_connect respond cfg gettext core_name connection).
Proof.
  unfold create_connect, connect, _send_api_request.
  through_sound; apply make_connection_sound.
Qed.

Lemma apply_diff_sound conn core_name d :
  sound respond (apply_diff respond cfg gettext conn core_name d).
Proof. unfold apply_diff, post_field; through_sound. Qed.

Lemma read_schema_trace errmsg conn w :
  trace (read_schema respond cfg errmsg conn w)
  = [(SchemaFields conn, fst (respond (SchemaFields conn) w))].
Proof.
  unfold read_schema, try_except_SolrError, bind, request.
  destruct (respond _ w) as [[e|r] w']; simpl.
  - destruct e; simpl; auto.
    destruct (debug cfg); simpl; auto. destruct errmsg; reflexivity.
  - destruct (fields r); reflexivity.
Qed.

Lemma read_schema_ok errmsg conn w fs :
  res (read_schema respond cfg errmsg conn w) = Ok fs ->
  exists r,
    respond (SchemaFields conn) w
    = (Returned r, final (read_schema respond cfg errmsg conn w))
    /\ fields r = Some fs.
Proof.
  unfold read_schema, try_except_SolrError, bind, request.
  destruct (respond _ w) as [[e|r] w']; simpl.
  - destruct e; simpl; try discriminate.
    destruct (debug cfg); simpl; try discriminate.
    destruct errmsg; discriminate.
  - destruct (fields r) as [l|] eqn:F; simpl; try discriminate.
    intro E; injection E as ->. exists r; auto.
Qed.

Lemma read_schema_returned errmsg conn w r w1 fs :
  respond (SchemaFields conn) w = (Returned r, w1) ->
  fields r = Some fs ->
  read_schema respond cfg errmsg conn w
  = Out (Ok fs) [(SchemaFields conn, Returned r)] w1.
Proof.
  intros R F.
  unfold read_schema, try_except_SolrError, bind, request.
  rewrite R; simpl. rewrite F; reflexivity.
Qed.
End CreateFacts.

(** ** [create] as a whole *)

Section CreateRuns.
Variable World : Type.
Variable respond : call -> World -> reply * World.
Variable cfg : Config.
Variable gettext : string -> string.

(** Once the core is connected, its schema read and the diff computed,
    [create] is the application of the diff. *)
Lemma create_run data_dict connection w errmsg conn evs0 w0 r w1 fs d :
  create_connect respond cfg gettext (core_name_of cfg data_dict)
    connection w = Out (Ok (errmsg, conn)) evs0 w0 ->
  respond (SchemaFields conn) w0 = (Returned r, w1) ->
  fields r = Some fs ->
  diff_fields fs (desired data_dict) = Ok d ->
  let a := apply_diff respond cfg gettext conn
             (core_name_of cfg data_dict) d w1 in
  let o := create respond cfg gettext data_dict connection w in
  trace o = (evs0 ++ (SchemaFields conn, Returned r) :: trace a)%list
  /\ final o = final a
  /\ res o = match res a with Ok _ => Ok PyNone | Raise e => Raise e end.
Proof.
  intros Hc Hr Hf Hd a o; subst a o; unfold create.
  rewrite bind_ok with (1 := Hc); simpl.
  rewrite bind_ok
    with (1 := read_schema_returned respond cfg errmsg conn w0 Hr Hf);
    simpl.
  unfold desired in Hd; rewrite Hd; simpl.
  unfold bind.
  destruct (truthy (to_add d) || truthy (to_update d)
            || truthy (to_remove d));
    destruct (res (apply_diff respond cfg gettext conn
                     (core_name_of cfg data_dict) d w1)) as [[]|e];
    simpl; rewrite ?app_nil_r; auto.
Qed.

(** Either [create] fails before it has computed a diff, and then makes no
    schema-mutation request, or it reaches the application of a diff of
    the schema it read. *)
Lemma create_cases data_dict connection w :
  let o := create respond cfg gettext data_dict connection w in
  ((exists e, res o = Raise e) /\ schema_posts (trace o) = [])
  \/ exists errmsg conn evs0 w0 r w1 fs d,
       create_connect respond cfg gettext (core_name_of cfg data_dict)
         connection w = Out (Ok (errmsg, conn)) evs0 w0
       /\ respond (SchemaFields conn) w0 = (Returned r, w1)
       /\ fields r = Some fs
       /\ diff_fields fs (desired data_dict) = Ok d.
Proof.
  intro o; subst o.
  pose proof (create_connect_quiet respond cfg gettext
                (core_name_of cfg data_dict) connection w) as Q.
  destruct (create_connect respond cfg gettext
              (core_name_of cfg data_dict) connection w)
    as [[[errmsg conn]|e] evs0 w0] eqn:Hc; simpl in Q;
    fold (schema_posts evs0) in Q.
  - pose proof (read_schema_trace respond cfg errmsg conn w0) as T.
    destruct (res (read_schema respond cfg errmsg conn w0))
      as [fs|e] eqn:R.
    + destruct (read_schema_ok _ _ _ _ _ R) as (r & Hr & Hf).
      destruct (diff_fields fs (desired data_dict)) as [d|e] eqn:Hd.
      * right; exists errmsg, conn, evs0, w0, r.
        exists (final (read_schema respond cfg errmsg conn w0)), fs, d.
        auto.
      * left; unfold create.
        rewrite bind_ok with (1 := Hc); simpl.
        rewrite bind_res_ok with (1 := R); simpl.
        unfold desired in Hd; rewrite Hd; simpl.
        split; [eauto|].
        rewrite T, app_nil_r, schema_posts_app, Q; reflexivity.
    + left; unfold create.
      rewrite bind_ok with (1 := Hc); simpl.
      rewrite bind_res_raise with (1 := R); simpl.
      split; [eauto|].
      rewrite T, schema_posts_app, Q; reflexivity.
  - left; unfold create.
    rewrite bind_raise with (1 := Hc); simpl; eauto.
Qed.
End CreateRuns.

(** The run of [create] once the diff is known. *)
Lemma create_applies_in_order_core
    (World : Type) (respond : call -> World -> reply * World)
    (cfg : Config) (gettext : string -> string)
    (data_dict : DataDict) (connection : option Solr) (w : World)
    (errmsg : option string) (conn : Solr) (evs0 : list event) (w0 : World)
    (r : response) (w1 : World) (fs : list solr_field) (d : SchemaDiff) :
  create_connect respond cfg gettext (core_name_of cfg data_dict)
    connection w = Out (Ok (errmsg, conn)) evs0 w0 ->
  respond (SchemaFields conn) w0 = (Returned r, w1) ->
  fields r = Some fs ->
  diff_fields fs (desired data_dict) = Ok d ->
  let o := create respond cfg gettext data_dict connection w in
  exists sent failure,
    trace o = (evs0 ++ (SchemaFields conn, Returned r) :: sent)%list
    /\ applied (post conn)
         (field_failure cfg gettext (core_name_of cfg data_dict))
         (plan d) sent failure
    /\ res o = match failure with
               | None => Ok PyNone
               | Some e => Raise e
               end
    /\ answered respond w1 sent (final o).
Proof.
  intros Hc Hr Hf Hd o.
  destruct (create_run respond cfg gettext data_dict connection w
              Hc Hr Hf Hd) as (T & F & R).
  destruct (diff_fields_named _ _ Hd) as (Na & Nu & Nr).
  destruct (apply_diff_applied respond cfg gettext conn
              (core_name_of cfg data_dict) d w1 Na Nu Nr)
    as (failure & Ap & Ra).
  exists (trace (apply_diff respond cfg gettext conn
                   (core_name_of cfg data_dict) d w1)), failure.
  split; [exact T|].
  split; [exact Ap|].
  split.
  - subst o; rewrite R, Ra. destruct failure; reflexivity.
  - subst o; rewrite F. apply apply_diff_sound.
Qed.

(** * The claims about [create] *)

(** C1. A desired field that is not a default one and whose type has no
    entry in [field_type_map] makes [create] raise, and no add-field,
    replace-field or delete-field request is made: every type is looked up
    while the diff is computed, before the first request of the diff. *)
Theorem create_unmapped_type_raises_before_mutation
    (World : Type) (respond : call -> World -> reply * World)
    (cfg : Config) (gettext : string -> string)
    (data_dict : DataDict) (connection : option Solr) (w : World)
    (ds_field : Field) :
  In ds_field (desired data_dict) ->
  str_in (id ds_field) default_solr_fields = false ->
  dict_get (type ds_field) field_type_map = None ->
  (exists e, res (create respond cfg gettext data_dict connection w) = Raise e)
  /\ schema_posts (trace (create respond cfg gettext data_dict connection w))
     = [].
Proof.
  intros Hin _ Hty.
  destruct (create_cases respond cfg gettext data_dict connection w)
    as [done|(errmsg & conn & evs0 & w0 & r & w1 & fs & d & _ & _ & _ & Hd)].
  - exact done.
  - destruct (diff_fields_mapped _ _ Hd _ Hin) as (t & T).
    unfold map_type in T; rewrite Hty in T; discriminate.
Qed.

Lemma create_unmapped_type_witness :
  let data_dict := fields_only "r" [col "age" "integer"; col "shape" "polygon"] in
  let o := create (scripted accepted) test_cfg no_translation data_dict
             (Some conn_r) [schema_is [id_field]] in
  (exists e, res o = Raise e) /\ schema_posts (trace o) = [].
Proof.
  apply create_unmapped_type_raises_before_mutation
    with (ds_field := col "shape" "polygon").
  - simpl; auto.
  - reflexivity.
  - reflexivity.
Defined.

(** C2. On a connected core whose schema was read and diffed, [create]
    makes one request per step of the diff, the adds first, then the
    replacements, then the deletions; the first request that fails is the
    last one made and its error, which names the field, is the error of
    [create]; the world is left as the requests made have put it, none of
    them being undone. *)
Theorem create_applies_adds_updates_removals_in_order
    (World : Type) (respond : call -> World -> reply * World)
    (cfg : Config) (gettext : string -> string)
    (data_dict : DataDict) (connection : option Solr) (w : World)
    (errmsg : option string) (conn : Solr) (evs0 : list event) (w0 : World)
    (r : response) (w1 : World) (fs : list solr_field) (d : SchemaDiff) :
  create_connect respond cfg gettext (core_name_of cfg data_dict)
    connection w = Out (Ok (errmsg, conn)) evs0 w0 ->
  respond (SchemaFields conn) w0 = (Returned r, w1) ->
  fields r = Some fs ->
  diff_fields fs (desired data_dict) = Ok d ->
  let o := create respond cfg gettext data_dict connection w in
  exists sent failure,
    trace o = (evs0 ++ (SchemaFields conn, Returned r) :: sent)%list
    /\ applied (post conn)
         (field_failure cfg gettext (core_name_of cfg data_dict))
         (plan d) sent failure
    /\ map fst sent = map (post conn) (firstn (length sent) (plan d))
    /\ res o = match failure with
               | None => Ok PyNone
               | Some e => Raise e
               end
    /\ answered respond w1 sent (final o).
Proof.
  intros Hc Hr Hf Hd o.
  destruct (create_applies_in_order_core respond cfg gettext data_dict
              connection w Hc Hr Hf Hd) as (sent & failure & T & Ap & R & An).
  exists sent, failure.
  repeat split; auto.
  exact (proj1 (applied_prefix Ap)).
Qed.

Lemma create_applies_in_order_witness :
  let fs := [id_field; live_field "age" "text"; live_field "legacy" "text"] in
  let data_dict := fields_only "r" [col "name" "text"; col "age" "integer"] in
  let d := {| to_add := [new_field "name" "text"];
              to_update := [dict_set "type" (VStr "int")
                                     (live_field "age" "text")];
              to_remove := [[("name", VStr "legacy")]] |} in
  let o := create (scripted accepted) test_cfg no_translation data_dict
             (Some conn_r) [schema_is fs; accepted; refused "no"] in
  exists sent failure,
    trace o = ([] ++ (SchemaFields conn_r, schema_is fs) :: sent)%list
    /\ applied (post conn_r) (field_failure test_cfg no_translation "ds_r")
         (plan d) sent failure
    /\ map fst sent = map (post conn_r) (firstn (length sent) (plan d))
    /\ res o = match failure with
               | None => Ok PyNone
               | Some e => Raise e
               end
    /\ answered (scripted accepted) [accepted; refused "no"] sent (final o).
Proof.
  intros fs data_dict d.
  apply (@create_applies_adds_updates_removals_in_order
           (list reply) (scripted accepted) test_cfg no_translation
           data_dict (Some conn_r) [schema_is fs; accepted; refused "no"]
           None conn_r [] [schema_is fs; accepted; refused "no"]
           {| status := None; fields := Some fs; error := None;
              ds_fields := None |}
           [accepted; refused "no"] fs d);
    reflexivity.
Defined.

(** ** Where the schema-mutation requests of [create] come from *)

Lemma schema_posts_none_in (tr : list event) (ev : event) :
  schema_posts tr = [] -> In ev tr -> is_schema_post ev = false.
Proof.
  intros E I. destruct (is_schema_post ev) eqn:P; [|reflexivity].
  assert (X : In ev (schema_posts tr)) by (apply filter_In; auto).
  rewrite E in X; contradiction.
Qed.

Lemma plan_in (d : SchemaDiff) (cmd : schema_cmd) (f : solr_field) :
  In (cmd, f) (plan d) ->
  match cmd with
  | AddField => In f (to_add d)
  | ReplaceField => In f (to_update d)
  | DeleteField => In f (to_remove d)
  end.
Proof.
  unfold plan; intro I.
  apply in_app_or in I as [I|I]; [|apply in_app_or in I as [I|I]];
    apply in_map_iff in I as (g & E & Ig); injection E as <- <-; exact Ig.
Qed.

(** Every add-field, replace-field or delete-field request of [create] is a
    step of the diff between the desired fields and the schema that the
    same call has read. *)
Lemma create_posts_in_plan
    (World : Type) (respond : call -> World -> reply * World)
    (cfg : Config) (gettext : string -> string)
    (data_dict : DataDict) (connection : option Solr) (w : World)
    (ev : event) :
  In ev (trace (create respond cfg gettext data_dict connection w)) ->
  is_schema_post ev = true ->
  exists conn r fs d,
    In (SchemaFields conn, Returned r)
       (trace (create respond cfg gettext data_dict connection w))
    /\ fields r = Some fs
    /\ diff_fields fs (desired data_dict) = Ok d
    /\ exists s, In s (plan d) /\ fst ev = post conn s.
Proof.
  intros I P.
  destruct (create_cases respond cfg gettext data_dict connection w)
    as [[_ Q]|(errmsg & conn & evs0 & w0 & r & w1 & fs & d
               & Hc & Hr & Hf & Hd)].
  - rewrite (schema_posts_none_in _ _ Q I) in P; discriminate.
  - destruct (create_applies_in_order_core respond cfg gettext data_dict
                connection w Hc Hr Hf Hd) as (sent & failure & T & Ap & _).
    exists conn, r, fs, d.
    rewrite T in I |- *.
    split; [apply in_or_app; right; now left|].
    split; [exact Hf|]. split; [exact Hd|].
    apply in_app_or in I as [I|[<-|I]].
    + pose proof (create_connect_quiet respond cfg gettext
                    (core_name_of cfg data_dict) connection w) as Q.
      rewrite Hc in Q; simpl in Q.
      rewrite (schema_posts_none_in _ _ Q I) in P; discriminate.
    + discriminate.
    + eapply applied_In; eauto.
Qed.

Lemma removed_names_in (tr : list event) (name : value) :
  In name (removed_names tr) ->
  exists conn f rep,
    In (SchemaPost conn DeleteField f, rep) tr
    /\ dict_get "name" f = Some name.
Proof.
  unfold removed_names; intro I.
  apply in_flat_map in I as ([c rep] & Iev & Hn); simpl in Hn.
  destruct c as [| |conn cmd f| | | | | |]; try contradiction.
  destruct cmd; try contradiction.
  destruct (dict_get "name" f) as [n|] eqn:N; [|contradiction].
  destruct Hn as [<-|[]].
  exists conn, f, rep; auto.
Qed.

(** What the diff removes: live fields, none of them a default field or a
    desired one. *)
Lemma diff_fields_removals fs ds d f :
  diff_fields fs ds = Ok d ->
  In f (to_remove d) ->
  exists name,
    f = [("name", name)]
    /\ ~ in_defaults name
    /\ (forall x, In x ds -> str_in (id x) default_solr_fields = false ->
                  name <> VStr (id x))
    /\ exists live, In live fs /\ dict_get "name" live = Some name.
Proof.
  intros E I.
  destruct (diff_fields_from _ _ E) as (keyed & K & KF & _ & _ & R).
  rewrite R in I; unfold removals in I.
  apply in_map_iff in I as (name & <- & I).
  apply filter_In in I as (Ik & Nw).
  apply dict_keys_get in Ik as (live & G).
  apply dict_get_in in G. destruct (KF _ _ G) as (N & D & L).
  exists name; split; [reflexivity|].
  split; [unfold in_defaults; congruence|].
  split; [|exists live; auto].
  intros x Ix Dx ->.
  apply negb_true_iff in Nw.
  assert (W : value_in (VStr (id x)) (wanted_ids ds) = true).
  { rewrite value_in_str. apply str_in_spec. unfold wanted_ids.
    apply filter_In; split; [now apply in_map | now rewrite Dx]. }
  congruence.
Qed.

(** C6. The names that [create] asks to delete are never default field
    names and never the id of a desired field that is not a default one. *)
Theorem create_never_removes_default_or_desired
    (World : Type) (respond : call -> World -> reply * World)
    (cfg : Config) (gettext : string -> string)
    (data_dict : DataDict) (connection : option Solr) (w : World)
    (name : value) :
  In name
     (removed_names (trace (create respond cfg gettext data_dict connection w)))
  ->
  ~ in_defaults name
  /\ forall x, In x (desired data_dict) ->
               str_in (id x) default_solr_fields = false ->
               name <> VStr (id x).
Proof.
  intro I. apply removed_names_in in I as (c & f & rep & Iev & N).
  destruct (create_posts_in_plan respond cfg gettext data_dict connection w
              _ Iev eq_refl)
    as (conn & r & fs & d & _ & _ & Hd & [cmd g] & Is & E).
  unfold post in E; simpl in E; injection E as <- <- <-.
  apply plan_in in Is.
  destruct (diff_fields_removals _ _ _ Hd Is) as (n & -> & D & W & _).
  simpl in N; injection N as <-. auto.
Qed.

Lemma create_never_removes_witness :
  let fs := [id_field; live_field "age" "int"; live_field "legacy" "text"] in
  let data_dict := fields_only "r" [col "_id" "integer"; col "age" "integer"] in
  ~ in_defaults (VStr "legacy")
  /\ forall x, In x (desired data_dict) ->
               str_in (id x) default_solr_fields = false ->
               VStr "legacy" <> VStr (id x).
Proof.
  intros fs data_dict.
  apply (@create_never_removes_default_or_desired
           (list reply) (scripted accepted) test_cfg no_translation
           data_dict (Some conn_r) [schema_is fs] (VStr "legacy")).
  vm_compute; auto.
Defined.

(** C10. The body of a replace-field request is the live field of that
    name, as the schema read returned it, with its [type] set to the mapped
    type of the desired field: the same keys in the same order, and every
    attribute other than [type] unchanged. *)
Theorem create_replace_keeps_live_attributes
    (World : Type) (respond : call -> World -> reply * World)
    (cfg : Config) (gettext : string -> string)
    (data_dict : DataDict) (connection : option Solr) (w : World)
    (conn : Solr) (f : solr_field) (rep : reply) :
  In (SchemaPost conn ReplaceField f, rep)
     (trace (create respond cfg gettext data_dict connection w)) ->
  exists r fs live x t,
    In (SchemaFields conn, Returned r)
       (trace (create respond cfg gettext data_dict connection w))
    /\ fields r = Some fs
    /\ In live fs
    /\ In x (desired data_dict)
    /\ dict_get "name" live = Some (VStr (id x))
    /\ map_type (type x) = Ok t
    /\ dict_get "type" live <> Some (VStr t)
    /\ f = dict_set "type" (VStr t) live
    /\ dict_get "type" f = Some (VStr t)
    /\ dict_keys f = dict_keys live
    /\ forall k, k <> "type" -> dict_get k f = dict_get k live.
Proof.
  intro Iev.
  destruct (create_posts_in_plan respond cfg gettext data_dict connection w
              _ Iev eq_refl)
    as (c & r & fs & d & Ir & Hf & Hd & [cmd g] & Is & E).
  unfold post in E; simpl in E; injection E as <- <- <-.
  apply plan_in in Is.
  destruct (diff_fields_from _ _ Hd) as (keyed & K & KF & _ & U & _).
  destruct (U f Is) as (x & t & live & Ix & G & T & Nt & Ht & ->).
  apply dict_get_in in G. destruct (KF _ _ G) as (N & _ & L).
  exists r, fs, live, x, t.
  repeat split; auto.
  - apply dict_get_set_same.
  - apply dict_keys_set_present. unfold dict_mem.
    destruct (dict_get "type" live); congruence.
  - intros k Hk; now apply dict_get_set_other.
Qed.

Lemma create_replace_keeps_witness :
  let fs := [id_field; live_field "age" "text"] in
  let data_dict := fields_only "r" [col "age" "integer"] in
  let o := create (scripted accepted) test_cfg no_translation data_dict
             (Some conn_r) [schema_is fs] in
  let f := [("name", VStr "age"); ("type", VStr "int"); ("stored", VBool true);
            ("indexed", VBool true); ("multiValued", VBool false)] in
  exists r fs live x t,
    In (SchemaFields conn_r, Returned r) (trace o)
    /\ fields r = Some fs
    /\ In live fs
    /\ In x (desired data_dict)
    /\ dict_get "name" live = Some (VStr (id x))
    /\ map_type (type x) = Ok t
    /\ dict_get "type" live <> Some (VStr t)
    /\ f = dict_set "type" (VStr t) live
    /\ dict_get "type" f = Some (VStr t)
    /\ dict_keys f = dict_keys live
    /\ forall k, k <> "type" -> dict_get k f = dict_get k live.
Proof.
  intros fs data_dict o f.
  apply (@create_replace_keeps_live_attributes
           (list reply) (scripted accepted) test_cfg no_translation
           data_dict (Some conn_r) [schema_is fs] conn_r f accepted).
  vm_compute; auto.
Defined.

(** C4, as the code has it.  A call of [create] that succeeds returns
    [None], whether or not a change was applied. *)
Theorem create_returns_none
    (World : Type) (respond : call -> World -> reply * World)
    (cfg : Config) (gettext : string -> string)
    (data_dict : DataDict) (connection : option Solr) (w : World)
    (v : pyobject) :
  res (create respond cfg gettext data_dict connection w) = Ok v ->
  v = PyNone.
Proof.
  intro E.
  destruct (create_cases respond cfg gettext data_dict connection w)
    as [[(e & R) _]|(errmsg & conn & evs0 & w0 & r & w1 & fs & d
                     & Hc & Hr & Hf & Hd)].
  - congruence.
  - destruct (create_applies_in_order_core respond cfg gettext data_dict
                connection w Hc Hr Hf Hd) as (sent & failure & _ & _ & R & _).
    rewrite R in E. destruct failure; congruence.
Qed.

Lemma create_returns_none_witness :
  let data_dict := fields_only "r" [col "age" "integer"] in
  let o := create (scripted accepted) test_cfg no_translation data_dict
             (Some conn_r) [schema_is [id_field]] in
  res o = Ok PyNone /\ PyNone = PyNone.
Proof.
  intros data_dict o; split; [reflexivity|].
  apply (@create_returns_none
           (list reply) (scripted accepted) test_cfg no_translation
           data_dict (Some conn_r) [schema_is [id_field]] PyNone).
  reflexivity.
Defined.

(** C4, as stated, fails: this call succeeds and applies an add-field, yet
    what it returns is not the boolean [True]. *)
Lemma create_applied_change_not_reported :
  let data_dict := fields_only "r" [col "age" "integer"] in
  let o := create (scripted accepted) test_cfg no_translation data_dict
             (Some conn_r) [schema_is [id_field]; accepted] in
  map fst (schema_posts (trace o))
  = [SchemaPost conn_r AddField (new_field "age" "int")]
  /\ map (fun ev => field_failure test_cfg no_translation "ds_r"
                      (AddField, new_field "age" "int") (snd ev))
         (schema_posts (trace o)) = [None]
  /\ res o = Ok PyNone
  /\ res o <> Ok (PyBool true).
Proof.
  repeat split; try reflexivity. discriminate.
Qed.

(** ** Failure of the schema read *)

(** What the handler of the schema read raises. *)
Lemma read_schema_SolrError
    (World : Type) (respond : call -> World -> reply * World)
    (cfg : Config) (errmsg : option string) (conn : Solr) (w w' : World)
    (arg : string) :
  respond (SchemaFields conn) w = (Raised (SolrError arg), w') ->
  res (read_schema respond cfg errmsg conn w)
  = Raise (if debug cfg
           then DatastoreSearchException (truncate arg)
           else match errmsg with
                | Some m => DatastoreSearchException m
                | None => UnboundLocalError "errmsg"
                end).
Proof.
  intro R. unfold read_schema, try_except_SolrError, bind, request.
  rewrite R; simpl.
  destruct (debug cfg); simpl; [reflexivity|].
  destruct errmsg; reflexivity.
Qed.

(** With a connection that is passed in, [errmsg] is still unbound when
    the schema is read. *)
Lemma create_connect_given
    (World : Type) (respond : call -> World -> reply * World)
    (cfg : Config) (gettext : string -> string)
    (core_name : string) (conn : Solr) (w : World) :
  create_connect respond cfg gettext core_name (Some conn) w
  = Out (Ok (None, conn)) [] w.
Proof. reflexivity. Qed.

(** When the connection was passed in and debug is off, a schema read that
    fails with a SolrError makes [create] raise UnboundLocalError. *)
Lemma create_read_error_given_connection
    (World : Type) (respond : call -> World -> reply * World)
    (cfg : Config) (gettext : string -> string)
    (data_dict : DataDict) (conn : Solr) (w w' : World) (arg : string) :
  debug cfg = false ->
  respond (SchemaFields conn) w = (Raised (SolrError arg), w') ->
  res (create respond cfg gettext data_dict (Some conn) w)
  = Raise (UnboundLocalError "errmsg").
Proof.
  intros D R. unfold create.
  rewrite bind_ok
    with (1 := create_connect_given respond cfg gettext
                 (core_name_of cfg data_dict) conn w); simpl.
  pose proof (read_schema_SolrError respond cfg None conn w R) as E.
  rewrite D in E.
  rewrite bind_res_raise with (1 := E); reflexivity.
Qed.

(** C7, on the code.  The core answers the ping, so no core is created;
    the schema read then fails with a SolrError and, debug being off,
    [create] raises UnboundLocalError, not DatastoreSearchException. *)
Theorem create_read_error_existing_core_unbound_errmsg :
  let data_dict := fields_only "r" [col "age" "integer"] in
  let o := create (scripted accepted) test_cfg no_translation data_dict
             None [pong; Raised (SolrError "HTTP 500")] in
  map fst (trace o) = [Ping conn_r; SchemaFields conn_r]
  /\ res o = Raise (UnboundLocalError "errmsg").
Proof. split; reflexivity. Qed.

(** ** Default field names among the desired fields *)

(** A replace-field request never names a default field. *)
Lemma create_replace_never_default
    (World : Type) (respond : call -> World -> reply * World)
    (cfg : Config) (gettext : string -> string)
    (data_dict : DataDict) (connection : option Solr) (w : World)
    (conn : Solr) (f : solr_field) (rep : reply) (name : value) :
  In (SchemaPost conn ReplaceField f, rep)
     (trace (create respond cfg gettext data_dict connection w)) ->
  dict_get "name" f = Some name ->
  ~ in_defaults name.
Proof.
  intros Iev N.
  destruct (create_posts_in_plan respond cfg gettext data_dict connection w
              _ Iev eq_refl)
    as (c & r & fs & d & _ & _ & Hd & [cmd g] & Is & E).
  unfold post in E; simpl in E; injection E as <- <- <-.
  apply plan_in in Is.
  destruct (diff_fields_from _ _ Hd) as (keyed & K & KF & _ & U & _).
  destruct (U f Is) as (x & t & live & Ix & G & T & Nt & Ht & ->).
  apply dict_get_in in G. destruct (KF _ _ G) as (Nl & D & _).
  rewrite dict_get_set_other in N by exact name_neq_type.
  unfold in_defaults. congruence.
Qed.

(** C5, on the code.  A desired field named as a default field is absent
    from [keyed_solr_fields], which leaves the default fields out, and so
    it is classified as new: an add-field request names it. *)
Theorem create_adds_default_named_field :
  let fs := [id_field; live_field "_version_" "plong";
             live_field "indexed_ts" "pdate"] in
  let data_dict := fields_only "r" [col "indexed_ts" "timestamp"] in
  let o := create (scripted accepted) test_cfg no_translation data_dict
             (Some conn_r) [schema_is fs; accepted] in
  str_in "indexed_ts" default_solr_fields = true
  /\ schema_posts (trace o)
     = [(SchemaPost conn_r AddField (new_field "indexed_ts" "date"),
         accepted)]
  /\ res o = Ok PyNone.
Proof. repeat split. Qed.

(** ** Desired fields that equal the live schema *)

Lemma NoDup_map_id_inj (ds : list Field) (x y : Field) :
  NoDup (map id ds) -> In x ds -> In y ds -> id x = id y -> x = y.
Proof.
  induction ds as [|d ds IH]; simpl; [contradiction|].
  intros N Ix Iy E. inversion N as [|? ? Nd Nds]; subst.
  destruct Ix as [<-|Ix], Iy as [<-|Iy]; auto.
  - exfalso; apply Nd. rewrite E. now apply in_map.
  - exfalso; apply Nd. rewrite <- E. now apply in_map.
Qed.

Lemma no_element_nil {A} (l : list A) : (forall x, ~ In x l) -> l = [].
Proof.
  destruct l as [|a l]; [reflexivity|].
  intro H; exfalso; apply (H a); now left.
Qed.

(** When no desired field bears a default name and the ids are distinct, a
    desired set that equals the live schema gives the empty diff. *)
Lemma diff_fields_same fs ds d :
  same_modulo_defaults fs ds ->
  NoDup (map id ds) ->
  (forall x, In x ds -> str_in (id x) default_solr_fields = false) ->
  diff_fields fs ds = Ok d ->
  plan d = [].
Proof.
  intros [Hlive Hwant] Nd Dn E.
  destruct (diff_fields_from _ _ E) as (keyed & K & KF & A & U & R).
  assert (Ea : to_add d = []).
  { apply no_element_nil; intros f Hf.
    destruct (A f Hf) as (x & t & Ix & G & _).
    destruct (Hwant x Ix (Dn x Ix)) as (live & Il & Nl).
    assert (M : dict_mem (VStr (id x)) keyed = true).
    { apply (key_solr_fields_mem _ _ K). left; exists live.
      repeat split; auto. rewrite value_in_str; auto. }
    unfold dict_mem in M; rewrite G in M; discriminate. }
  assert (Eu : to_update d = []).
  { apply no_element_nil; intros f Hf.
    destruct (U f Hf) as (x & t & live & Ix & G & T & Nt & _).
    apply dict_get_in in G. destruct (KF _ _ G) as (Nl & Dl & Il).
    destruct (Hlive live _ Il Nl) as (y & t' & Iy & Ey & Ty & Lt).
    { unfold in_defaults; congruence. }
    injection Ey as Ey.
    assert (x = y) by (eapply NoDup_map_id_inj; eauto); subst y.
    congruence. }
  assert (Er : to_remove d = []).
  { apply no_element_nil; intros f Hf.
    destruct (diff_fields_removals _ _ _ E Hf)
      as (name & _ & D & W & live & Il & Nl).
    destruct (Hlive live _ Il Nl D) as (y & t' & Iy & Ey & _).
    exact (W y Iy (Dn y Iy) Ey). }
  unfold plan; rewrite Ea, Eu, Er; reflexivity.
Qed.

(** Zero schema-mutation requests for a desired set that equals the schema
    read, as long as no desired field bears a default name and the ids are
    distinct. *)
Lemma create_same_schema_no_posts
    (World : Type) (respond : call -> World -> reply * World)
    (cfg : Config) (gettext : string -> string)
    (data_dict : DataDict) (connection : option Solr) (w : World) :
  (forall conn r fs,
      In (SchemaFields conn, Returned r)
         (trace (create respond cfg gettext data_dict connection w)) ->
      fields r = Some fs ->
      same_modulo_defaults fs (desired data_dict)) ->
  NoDup (map id (desired data_dict)) ->
  (forall x, In x (desired data_dict) ->
             str_in (id x) default_solr_fields = false) ->
  schema_posts (trace (create respond cfg gettext data_dict connection w))
  = [].
Proof.
  intros Same Nd Dn. apply no_element_nil; intros ev Iev.
  apply filter_In in Iev as (Iev & P).
  destruct (create_posts_in_plan respond cfg gettext data_dict connection w
              _ Iev P)
    as (c & r & fs & d & Ir & Hf & Hd & s & Is & _).
  rewrite (diff_fields_same (Same c r fs Ir Hf) Nd Dn Hd) in Is.
  contradiction.
Qed.

(** C3, on the code.  The desired fields equal the live schema modulo the
    default fields, and yet an add-field request is made, for the desired
    field that bears a default name. *)
Theorem create_same_schema_adds_default_named_field :
  let fs := [id_field; live_field "indexed_ts" "pdate"; live_field "age" "int"] in
  let data_dict :=
    fields_only "r" [col "indexed_ts" "timestamp"; col "age" "bigint"] in
  let o := create (scripted accepted) test_cfg no_translation data_dict
             (Some conn_r) [schema_is fs; accepted] in
  same_modulo_defaults fs (desired data_dict)
  /\ schema_posts (trace o)
     = [(SchemaPost conn_r AddField (new_field "indexed_ts" "date"),
         accepted)].
Proof.
  intros fs data_dict o. split; [|reflexivity].
  split.
  - intros live name [<-|[<-|[<-|[]]]] N D; simpl in N; injection N as <-.
    + exfalso; apply D; reflexivity.
    + exfalso; apply D; reflexivity.
    + exists (col "age" "bigint"), "int"; simpl; auto.
  - intros x [<-|[<-|[]]] D.
    + discriminate D.
    + exists (live_field "age" "int"); simpl; auto.
Qed.

(** ** The traces are what was exchanged *)

Lemma create_sound
    (World : Type) (respond : call -> World -> reply * World)
    (cfg : Config) (gettext : string -> string)
    (data_dict : DataDict) (connection : option Solr) :
  sound respond (create respond cfg gettext data_dict connection).
Proof.
  unfold create. apply sound_bind; [apply create_connect_sound|].
  intros [errmsg conn]. apply sound_bind.
  { unfold read_schema; through_sound. }
  intro fs. apply sound_bind; [apply sound_lift|].
  intro d. apply sound_bind; [apply apply_diff_sound|].
  intro; through_sound.
Qed.

Lemma upsert_sound
    (World : Type) (respond : call -> World -> reply * World)
    (cfg : Config) (gettext : string -> string)
    (data_dict : DataDict) (connection : option Solr) :
  sound respond (upsert respond cfg gettext data_dict connection).
Proof.
  unfold upsert, upsert_connect, connect, add_record.
  through_sound;
    solve [apply make_connection_sound | apply create_sound].
Qed.

Lemma delete_sound
    (World : Type) (respond : call -> World -> reply * World)
    (cfg : Config) (gettext : string -> string)
    (data_dict : DataDict) (connection : option Solr) :
  sound respond (delete respond cfg gettext data_dict connection).
Proof.
  unfold delete, connect, delete_filter, _send_api_request.
  through_sound; apply make_connection_sound.
Qed.

(** * The claims about [upsert] and [delete] *)

Section Records.
Variable World : Type.
Variable respond : call -> World -> reply * World.
Variable cfg : Config.
Variable gettext : string -> string.

Lemma add_record_run conn core_name r w :
  add_record respond cfg gettext conn core_name r w
  = Out (outcome (add_failure cfg gettext core_name r
                    (fst (respond (Add conn [r] false) w))))
        [(Add conn [r] false, fst (respond (Add conn [r] false) w))]
        (snd (respond (Add conn [r] false) w)).
Proof.
  unfold add_record, try_except_SolrError, bind, request, add_failure.
  destruct (respond (Add conn [r] false) w) as [[e|resp] w']; simpl;
    [|reflexivity].
  destruct e; simpl; try reflexivity.
  now rewrite append_empty_r.
Qed.

Lemma add_record_sound conn core_name r :
  sound respond (add_record respond cfg gettext conn core_name r).
Proof. unfold add_record; through_sound. Qed.

Lemma delete_filter_run conn core_name item errmsg w :
  delete_errmsg gettext core_name item = Ok errmsg ->
  delete_filter respond cfg gettext conn core_name item w
  = Out (outcome (delete_failure cfg gettext core_name item
                    (fst (respond (Delete conn (filter_query item) false)
                                  w))))
        [(Delete conn (filter_query item) false,
          fst (respond (Delete conn (filter_query item) false) w))]
        (snd (respond (Delete conn (filter_query item) false) w)).
Proof.
  intro F.
  unfold delete_filter, delete_failure, filter_query.
  destruct item as [key value]; unfold delete_errmsg in *; simpl in *.
  unfold try_except_SolrError, bind, request, lift.
  rewrite F; simpl.
  destruct (respond _ w) as [[e|resp] w']; simpl; [|reflexivity].
  destruct e; reflexivity.
Qed.

Lemma delete_filter_sound conn core_name item :
  sound respond (delete_filter respond cfg gettext conn core_name item).
Proof. unfold delete_filter; destruct item; through_sound. Qed.
End Records.

(** C8. With a connection and a list of records that is not empty,
    [upsert] makes one add call per record, each with that record alone and
    without commit, in the order of the list; the first add that raises is
    the last request made and [upsert] raises, without a commit; when every
    add went through, one commit that does not wait for the searcher
    follows, and nothing else. *)
Theorem upsert_adds_each_record_then_commits
    (World : Type) (respond : call -> World -> reply * World)
    (cfg : Config) (gettext : string -> string)
    (data_dict : DataDict) (connection : option Solr) (w : World)
    (conn : Solr) (evs0 : list event) (w0 : World) (recs : list document) :
  upsert_connect respond cfg gettext data_dict connection w
  = Out (Ok conn) evs0 w0 ->
  records data_dict = Some recs ->
  recs <> [] ->
  let o := upsert respond cfg gettext data_dict connection w in
  exists sent failure w1,
    applied (fun r => Add conn [r] false)
      (add_failure cfg gettext (core_name_of cfg data_dict))
      recs sent failure
    /\ answered respond w0 sent w1
    /\ match failure with
       | Some e =>
           trace o = (evs0 ++ sent)%list /\ res o = Raise e /\ final o = w1
       | None =>
           trace o
           = (evs0 ++ sent
              ++ [(Commit conn false, fst (respond (Commit conn false) w1))])%list
           /\ res o = match fst (respond (Commit conn false) w1) with
                      | Raised e => Raise e
                      | Returned _ => Ok PyNone
                      end
           /\ final o = snd (respond (Commit conn false) w1)
       end.
Proof.
  intros Hc Hr Hne o; subst o; unfold upsert.
  rewrite bind_ok with (1 := Hc); simpl.
  rewrite Hr; simpl.
  destruct recs as [|r0 recs]; [contradiction|].
  set (l := r0 :: recs).
  change (truthy l) with true; cbv iota.
  set (loop := for_each l (add_record respond cfg gettext conn
                             (core_name_of cfg data_dict))).
  assert (All : Forall (fun _ : document => True) l)
    by (apply Forall_forall; auto).
  destruct (@for_each_applied World respond document document
              (fun r => Add conn [r] false)
              (add_failure cfg gettext (core_name_of cfg data_dict))
              (fun r => r)
              (add_record respond cfg gettext conn
                 (core_name_of cfg data_dict))
              (fun _ => True)
              (fun x w' _ => add_record_run respond cfg gettext conn
                               (core_name_of cfg data_dict) x w')
              l w0 All)
    as (failure & Ap & R).
  rewrite map_id in Ap.
  assert (So : answered respond w0 (trace (loop w0)) (final (loop w0))).
  { apply sound_for_each; intro; apply add_record_sound. }
  exists (trace (loop w0)), failure, (final (loop w0)).
  split; [exact Ap|]. split; [exact So|].
  fold loop in R.
  destruct failure as [e|]; simpl in R.
  - rewrite bind_res_raise with (1 := R); simpl. auto.
  - rewrite bind_res_ok with (1 := R); simpl.
    unfold bind, request.
    destruct (respond (Commit conn false) (final (loop w0))) as [[e|x] w2];
      simpl; rewrite ?app_nil_r; auto.
Qed.

Lemma upsert_adds_each_record_witness :
  let recs := [[("_id", VStr "1")]; [("_id", VStr "2")]; [("_id", VStr "3")]] in
  let data_dict := {| resource_id := Some "r"; dd_fields := None;
                      records := Some recs; filters := None |} in
  let w := [accepted; Raised (SolrError "bad document")] in
  let o := upsert (scripted accepted) test_cfg no_translation data_dict
             (Some conn_r) w in
  exists sent failure w1,
    applied (fun r => Add conn_r [r] false)
      (add_failure test_cfg no_translation "ds_r") recs sent failure
    /\ answered (scripted accepted) w sent w1
    /\ match failure with
       | Some e =>
           trace o = ([] ++ sent)%list /\ res o = Raise e /\ final o = w1
       | None =>
           trace o
           = ([] ++ sent
              ++ [(Commit conn_r false,
                   fst (scripted accepted (Commit conn_r false) w1))])%list
           /\ res o = match fst (scripted accepted (Commit conn_r false) w1)
                      with
                      | Raised e => Raise e
                      | Returned _ => Ok PyNone
                      end
           /\ final o = snd (scripted accepted (Commit conn_r false) w1)
       end.
Proof.
  intros recs data_dict w.
  apply (@upsert_adds_each_record_then_commits
           (list reply) (scripted accepted) test_cfg no_translation
           data_dict (Some conn_r) w conn_r [] w recs).
  - reflexivity.
  - reflexivity.
  - discriminate.
Defined.

(** C9. With a connection and a filters mapping that is not empty,
    [delete] makes one delete-by-query request per pair, with the query
    [key:value] and without commit, in the order of the mapping; the first
    that raises is the last request made and [delete] raises; no commit is
    requested; the world is left as the deletions made have put it.  The
    translated message is assumed to take its three arguments. *)
Theorem delete_filters_one_query_each_no_commit
    (World : Type) (respond : call -> World -> reply * World)
    (cfg : Config) (gettext : string -> string)
    (data_dict : DataDict) (connection : option Solr) (w : World)
    (conn : Solr) (evs0 : list event) (w0 : World)
    (fl : dict string value) :
  connect respond cfg (core_name_of cfg data_dict) connection w
  = Out (Ok (Some conn)) evs0 w0 ->
  filters data_dict = Some fl ->
  fl <> [] ->
  Forall (fun item =>
            exists m,
              delete_errmsg gettext (core_name_of cfg data_dict) item = Ok m)
         fl ->
  let o := delete respond cfg gettext data_dict connection w in
  exists sent failure,
    trace o = (evs0 ++ sent)%list
    /\ applied (fun item => Delete conn (filter_query item) false)
         (delete_failure cfg gettext (core_name_of cfg data_dict))
         fl sent failure
    /\ res o = match failure with
               | None => Ok PyNone
               | Some e => Raise e
               end
    /\ filter is_commit (trace o) = []
    /\ answered respond w0 sent (final o).
Proof.
  intros Hc Hf Hne Fmt o; subst o; unfold delete.
  rewrite bind_ok with (1 := Hc); simpl.
  rewrite Hf; simpl.
  destruct fl as [|i0 fl]; [contradiction|].
  set (l := i0 :: fl) in *.
  change (negb (truthy l)) with false; cbv iota.
  set (loop := for_each l (delete_filter respond cfg gettext conn
                             (core_name_of cfg data_dict))).
  destruct (@for_each_applied World respond (string * value) (string * value)
              (fun item => Delete conn (filter_query item) false)
              (delete_failure cfg gettext (core_name_of cfg data_dict))
              (fun item => item)
              (delete_filter respond cfg gettext conn
                 (core_name_of cfg data_dict))
              (fun item =>
                 exists m,
                   delete_errmsg gettext (core_name_of cfg data_dict) item
                   = Ok m))
    with (l := l) (w := w0) as (failure & Ap & R); [|exact Fmt|].
  { intros x w' (m & Hm); eapply delete_filter_run; eauto. }
  rewrite map_id in Ap. fold loop in Ap, R.
  assert (So : answered respond w0 (trace (loop w0)) (final (loop w0))).
  { apply sound_for_each; intro; apply delete_filter_sound. }
  assert (Nc : filter is_commit (evs0 ++ trace (loop w0)) = []).
  { rewrite filter_app.
    pose proof (@connect_avoids World respond cfg is_commit
                  (core_name_of cfg data_dict) connection
                  (fun _ _ => eq_refl) w) as Q.
    rewrite Hc in Q; simpl in Q; rewrite Q; simpl.
    apply no_element_nil; intros ev Iev.
    apply filter_In in Iev as (Iev & P).
    destruct (applied_In ev Ap Iev) as (x & _ & E).
    destruct ev as [c rep]; simpl in E; subst c; discriminate. }
  exists (trace (loop w0)), failure.
  destruct failure as [e|]; simpl in R.
  - rewrite bind_res_raise with (1 := R); simpl. auto.
  - rewrite bind_res_ok with (1 := R); simpl.
    rewrite app_nil_r. auto.
Qed.

Lemma delete_filters_witness :
  let fl := [("year", VStr "2020"); ("open", VBool true)] in
  let data_dict := {| resource_id := Some "r"; dd_fields := None;
                      records := None; filters := Some fl |} in
  let w := [pong; accepted; Raised (SolrError "syntax error")] in
  let o := delete (scripted accepted) test_cfg no_translation data_dict
             None w in
  exists sent failure,
    trace o = ([(Ping conn_r, pong)] ++ sent)%list
    /\ applied (fun item => Delete conn_r (filter_query item) false)
         (delete_failure test_cfg no_translation "ds_r") fl sent failure
    /\ res o = match failure with
               | None => Ok PyNone
               | Some e => Raise e
               end
    /\ filter is_commit (trace o) = []
    /\ answered (scripted accepted)
         [accepted; Raised (SolrError "syntax error")] sent (final o).
Proof.
  intros fl data_dict w.
  apply (@delete_filters_one_query_each_no_commit
           (list reply) (scripted accepted) test_cfg no_translation
           data_dict None w conn_r [(Ping conn_r, pong)]
           [accepted; Raised (SolrError "syntax error")] fl).
  - reflexivity.
  - reflexivity.
  - discriminate.
  - repeat constructor; eexists; reflexivity.
Defined.

(** * Further properties of the backend *)

(** ** [_make_connection] *)

Lemma status_OK_eqb {A : Type} (o : option string) (a b : A) :
  match o with Some "OK" => a | _ => b end
  = if match o with Some s => String.eqb s "OK" | None => false end
    then a else b.
Proof.
  destruct o as [s|]; [|reflexivity].
  destruct s as [|c s]; [reflexivity|].
  destruct c as [[] [] [] [] [] [] [] []]; try reflexivity.
  destruct s as [|c s]; [reflexivity|].
  destruct c as [[] [] [] [] [] [] [] []]; try reflexivity.
  destruct s; reflexivity.
Qed.

(** The whole run of [_make_connection]: one ping, whose SolrError is
    swallowed. *)
Lemma make_connection_run
    (World : Type) (respond : call -> World -> reply * World)
    (cfg : Config) (core_name : string) (w : World) :
  _make_connection respond cfg core_name w
  = Out (match fst (respond (Ping (core_url cfg core_name)) w) with
         | Raised (SolrError _) => Ok None
         | Raised e => Raise e
         | Returned x =>
             Ok (if ping_ok (Returned x)
                 then Some (core_url cfg core_name) else None)
         end)
        [(Ping (core_url cfg core_name),
          fst (respond (Ping (core_url cfg core_name)) w))]
        (snd (respond (Ping (core_url cfg core_name)) w)).
Proof.
  unfold _make_connection, core_url, try_except_SolrError, bind, request.
  destruct (respond _ w) as [[e|x] w']; simpl.
  - destruct e; reflexivity.
  - rewrite status_OK_eqb.
    destruct (status x) as [s|]; [|reflexivity].
    destruct (String.eqb s "OK"); reflexivity.
Qed.

Arguments ping_ok r : simpl never.

(** X1. [_make_connection] makes exactly one request, a ping of the core's
    URL; it never raises a SolrError; and the connection it returns, if
    any, is to that URL and was answered with status OK. *)
Theorem make_connection_pings_once_and_swallows_SolrError
    (World : Type) (respond : call -> World -> reply * World)
    (cfg : Config) (core_name : string) (w : World) :
  let o := _make_connection respond cfg core_name w in
  map fst (trace o) = [Ping (url cfg ++ "/solr/" ++ core_name)]
  /\ (forall arg, res o <> Raise (SolrError arg))
  /\ (forall conn, res o = Ok (Some conn) ->
        conn = url cfg ++ "/solr/" ++ core_name
        /\ Forall (fun ev => ping_ok (snd ev) = true) (trace o)).
Proof.
  intro o; subst o; rewrite make_connection_run; simpl.
  split; [reflexivity|].
  destruct (fst (respond (Ping (core_url cfg core_name)) w)) as [e|x] eqn:R.
  - split; [intro arg; destruct e; simpl; discriminate|].
    intros conn E; destruct e; simpl in E; discriminate E.
  - split; [intro arg; discriminate|].
    intros conn E.
    destruct (ping_ok (Returned x)) eqn:P; simpl in E; [|discriminate E].
    injection E as <-. split; [reflexivity|].
    repeat constructor; exact P.
Qed.

(** ** The creation of the core by [create] *)

Section CoreCreation.
Variable World : Type.
Variable respond : call -> World -> reply * World.
Variable cfg : Config.
Variable gettext : string -> string.

Lemma read_schema_avoids p errmsg conn :
  (forall r, p (SchemaFields conn, r) = false) ->
  avoids p (read_schema respond cfg errmsg conn).
Proof.
  intro N; unfold read_schema.
  apply avoids_try; [|intro; through_avoids].
  apply avoids_bind; [apply avoids_request; intro; apply N|].
  intro; through_avoids.
Qed.

Lemma apply_diff_avoids p conn core_name d :
  (forall cmd f r, p (SchemaPost conn cmd f, r) = false) ->
  avoids p (apply_diff respond cfg gettext conn core_name d).
Proof.
  intro N; unfold apply_diff, post_field.
  repeat (apply avoids_bind; [|intro]);
    apply avoids_for_each; intro;
    repeat (apply avoids_bind; [|intro]);
    try apply avoids_lift;
    try (apply avoids_try; [apply avoids_request; intro; apply N|intro]);
    through_avoids.
Qed.

(** After its connection phase [create] only reads and writes the schema. *)
Lemma create_trace_split p data_dict connection w :
  (forall c r, p (SchemaFields c, r) = false) ->
  (forall c cmd f r, p (SchemaPost c cmd f, r) = false) ->
  filter p (trace (create respond cfg gettext data_dict connection w))
  = filter p (trace (create_connect respond cfg gettext
                       (core_name_of cfg data_dict) connection w)).
Proof.
  intros N1 N2. unfold create. unfold bind at 1.
  destruct (res (create_connect respond cfg gettext
                   (core_name_of cfg data_dict) connection w))
    as [[errmsg conn]|e]; simpl; [|reflexivity].
  rewrite filter_app.
  match goal with
  | |- (_ ++ filter p (trace (?k ?w1)))%list = _ =>
      assert (Q : avoids p k)
  end.
  { apply avoids_bind; [apply read_schema_avoids; intro; apply N1|].
    intro fs.
    apply avoids_bind; [apply avoids_lift|]. intro d.
    apply avoids_bind; [apply apply_diff_avoids; intros; apply N2|]. intro.
    through_avoids. }
  rewrite Q. apply app_nil_r.
Qed.

(** The connection phase when the first attempt finds no core. *)
Lemma create_connect_absent core_name w evs w1 :
  _make_connection respond cfg core_name w = Out (Ok None) evs w1 ->
  create_connect respond cfg gettext core_name None w
  = match py_format (gettext "Could not create SOLR core %s") [core_name] with
    | Raise e => Out (Raise e) evs w1
    | Ok errmsg =>
        let post := ApiPost (url cfg ++ "/api/" ++ "cores")
                            (Some (create_body core_name)) in
        let r := fst (respond post w1) in
        let w2 := snd (respond post w1) in
        match r with
        | Raised e => Out (Raise e) (evs ++ [(post, r)]) w2
        | Returned x =>
            match error x with
            | Some err =>
                Out (Raise (DatastoreSearchException
                              (shown cfg errmsg
                                 (match err with
                                  | Some msg => msg
                                  | None => errmsg
                                  end))))
                    (evs ++ [(post, r)]) w2
            | None =>
                let o := _make_connection respond cfg core_name w2 in
                match res o with
                | Raise e =>
                    Out (Raise e) (evs ++ (post, r) :: trace o) (final o)
                | Ok (Some c) =>
                    Out (Ok (Some errmsg, c))
                        (evs ++ (post, r) :: trace o) (final o)
                | Ok None =>
                    match py_format
                            (gettext "Could not connect to SOLR core %s")
                            [core_name] with
                    | Raise e =>
                        Out (Raise e) (evs ++ (post, r) :: trace o) (final o)
                    | Ok msg =>
                        Out (Raise (DatastoreSearchException msg))
                            (evs ++ (post, r) :: trace o) (final o)
                    end
                end
            end
        end
    end.
Proof.
  intro Hm. unfold create_connect, connect.
  rewrite bind_ok with (1 := Hm).
  unfold bind, lift, ret, raise, _send_api_request, request, create_body.
  simpl.
  destruct (py_format (gettext "Could not create SOLR core %s") [core_name])
    as [errmsg|e]; simpl; [|now rewrite app_nil_r].
  destruct (respond _ w1) as [[e|x] w2]; simpl; [reflexivity|].
  destruct (error x) as [err|]; simpl; [reflexivity|].
  destruct (res (_make_connection respond cfg core_name w2))
    as [[c|]|e]; simpl; rewrite ?app_nil_r; try reflexivity.
  destruct (py_format (gettext "Could not connect to SOLR core %s")
              [core_name]); simpl; rewrite ?app_nil_r; reflexivity.
Qed.
End CoreCreation.

Lemma create_connect_absent_api
    (World : Type) (respond : call -> World -> reply * World)
    (cfg : Config) (gettext : string -> string)
    (core_name : string) (w : World) (evs : list event) (w1 : World) :
  _make_connection respond cfg core_name w = Out (Ok None) evs w1 ->
  filter is_api evs = [] ->
  filter is_api
    (trace (create_connect respond cfg gettext core_name None w)) = []
  \/ exists rep,
       filter is_api
         (trace (create_connect respond cfg gettext core_name None w))
       = [(ApiPost (url cfg ++ "/api/cores") (Some (create_body core_name)),
           rep)].
Proof.
  intros Hm He.
  rewrite create_connect_absent with (1 := Hm).
  destruct (py_format (gettext "Could not create SOLR core %s") [core_name])
    as [errmsg|e]; [|left; exact He].
  right. cbv zeta. simpl append.
  set (post := ApiPost (url cfg ++ "/api/cores")
                       (Some (create_body core_name))).
  destruct (respond post w1) as [r w2]; simpl fst; simpl snd.
  exists r.
  pose proof (make_connection_avoids respond cfg is_api core_name
                (fun _ _ => eq_refl) w2) as Qm.
  assert (Hone : filter is_api (evs ++ [(post, r)]) = [(post, r)]).
  { rewrite filter_app, He; reflexivity. }
  assert (Htwo : filter is_api
                   (evs ++ (post, r)
                        :: trace (_make_connection respond cfg core_name w2))
                 = [(post, r)]).
  { rewrite filter_app, He; simpl. now rewrite Qm. }
  destruct r as [e|x]; [exact Hone|].
  destruct (error x); [exact Hone|].
  destruct (res (_make_connection respond cfg core_name w2)) as [[c|]|e];
    try exact Htwo.
  destruct (py_format _ _); exact Htwo.
Qed.

(** X2. The only request that [create] makes to the API v2 is the creation
    of its own core from the configset [datastore_resource]; it makes it at
    most once, and only when no connection was passed in and the ping of
    the core was not answered with status OK. *)
Theorem create_api_request_is_core_creation
    (World : Type) (respond : call -> World -> reply * World)
    (cfg : Config) (gettext : string -> string)
    (data_dict : DataDict) (connection : option Solr) (w : World) :
  let core_name := core_name_of cfg data_dict in
  let o := create respond cfg gettext data_dict connection w in
  filter is_api (trace o) = []
  \/ (connection = None
      /\ ping_ok (fst (respond (Ping (core_url cfg core_name)) w)) = false
      /\ exists rep,
           filter is_api (trace o)
           = [(ApiPost (url cfg ++ "/api/cores")
                       (Some [[("name", VStr core_name);
                               ("configSet", VStr "datastore_resource")]]),
               rep)]).
Proof.
  intros core_name o; subst o.
  rewrite create_trace_split by reflexivity.
  destruct connection as [c|]; [left; reflexivity|].
  fold core_name.
  pose proof (make_connection_run respond cfg core_name w) as Hm.
  pose proof (make_connection_avoids respond cfg is_api core_name
                (fun _ _ => eq_refl) w) as Qm.
  destruct (_make_connection respond cfg core_name w)
    as [[[c|]|e] evs w1] eqn:Hc; simpl in Qm.
  - left. unfold create_connect, connect.
    rewrite bind_ok with (1 := Hc); simpl. now rewrite app_nil_r.
  - assert (P : ping_ok (fst (respond (Ping (core_url cfg core_name)) w))
                = false).
    { injection Hm as Hr _ _.
      destruct (fst (respond (Ping (core_url cfg core_name)) w)) as [e|x];
        [reflexivity|].
      destruct (ping_ok (Returned x)); [discriminate Hr | reflexivity]. }
    destruct (create_connect_absent_api respond cfg gettext core_name w
                Hc Qm) as [Z|(rep & Z)]; [left; exact Z|].
    right. split; [reflexivity|]. split; [exact P|]. exists rep; exact Z.
  - left. unfold create_connect, connect.
    rewrite bind_raise with (1 := Hc); exact Qm.
Qed.

(** X3. When the core is absent and the answer to its creation carries an
    [error], [create] raises DatastoreSearchException and stops there: no
    second ping, no schema read, no schema write.  The message is the
    generic one unless debug is on, when it is the answer's [msg] (or the
    generic one if it has none) cut at MAX_ERR_LEN. *)
Theorem create_refused_core_creation_stops
    (World : Type) (respond : call -> World -> reply * World)
    (cfg : Config) (gettext : string -> string)
    (data_dict : DataDict) (w : World)
    (evs : list event) (w1 w2 : World) (errmsg : string)
    (x : response) (err : option string) :
  let core_name := core_name_of cfg data_dict in
  let post := ApiPost (url cfg ++ "/api/cores")
                (Some [[("name", VStr core_name);
                        ("configSet", VStr "datastore_resource")]]) in
  _make_connection respond cfg core_name w = Out (Ok None) evs w1 ->
  py_format (gettext "Could not create SOLR core %s") [core_name]
  = Ok errmsg ->
  respond post w1 = (Returned x, w2) ->
  error x = Some err ->
  create respond cfg gettext data_dict None w
  = Out (Raise (DatastoreSearchException
                  (if debug cfg
                   then truncate (match err with
                                  | Some msg => msg
                                  | None => errmsg
                                  end)
                   else errmsg)))
        (evs ++ [(post, Returned x)]) w2.
Proof.
  intros core_name post Hm Hf Hp He.
  unfold create. fold core_name.
  apply bind_raise.
  rewrite create_connect_absent with (1 := Hm).
  rewrite Hf.
  change (ApiPost (url cfg ++ "/api/" ++ "cores")
                  (Some (create_body core_name))) with post.
  cbv zeta. rewrite Hp; simpl. rewrite He.
  unfold shown. destruct (debug cfg); reflexivity.
Qed.

Lemma create_refused_core_creation_witness :
  let data_dict := fields_only "r" [col "age" "integer"] in
  let w := [Raised (SolrError "404"); refused "configset missing"] in
  create (scripted accepted) test_cfg no_translation data_dict None w
  = Out (Raise (DatastoreSearchException "Could not create SOLR core ds_r"))
        ([(Ping conn_r, Raised (SolrError "404"))]
         ++ [(ApiPost "http://solr/api/cores"
                (Some [[("name", VStr "ds_r");
                        ("configSet", VStr "datastore_resource")]]),
              refused "configset missing")])
        [].
Proof.
  intros data_dict w.
  apply (@create_refused_core_creation_stops
           (list reply) (scripted accepted) test_cfg no_translation
           data_dict w [(Ping conn_r, Raised (SolrError "404"))]
           [refused "configset missing"] []
           "Could not create SOLR core ds_r"
           {| status := None; fields := None;
              error := Some (Some "configset missing"); ds_fields := None |}
           (Some "configset missing"));
    reflexivity.
Defined.

(** X4. When the core is absent, its creation is answered without error
    and the core still does not answer the ping, [create] raises
    DatastoreSearchException with the message "Could not connect to SOLR
    core ...", whatever the debug setting, after exactly three requests:
    ping, creation, ping. *)
Theorem create_unreachable_after_creation
    (World : Type) (respond : call -> World -> reply * World)
    (cfg : Config) (gettext : string -> string)
    (data_dict : DataDict) (w : World)
    (evs evs' : list event) (w1 w2 w3 : World) (errmsg msg : string)
    (x : response) :
  let core_name := core_name_of cfg data_dict in
  let post := ApiPost (url cfg ++ "/api/cores")
                (Some [[("name", VStr core_name);
                        ("configSet", VStr "datastore_resource")]]) in
  _make_connection respond cfg core_name w = Out (Ok None) evs w1 ->
  py_format (gettext "Could not create SOLR core %s") [core_name]
  = Ok errmsg ->
  respond post w1 = (Returned x, w2) ->
  error x = None ->
  _make_connection respond cfg core_name w2 = Out (Ok None) evs' w3 ->
  py_format (gettext "Could not connect to SOLR core %s") [core_name]
  = Ok msg ->
  create respond cfg gettext data_dict None w
  = Out (Raise (DatastoreSearchException msg))
        (evs ++ (post, Returned x) :: evs') w3
  /\ map fst (evs ++ (post, Returned x) :: evs')
     = [Ping (core_url cfg core_name); post; Ping (core_url cfg core_name)].
Proof.
  intros core_name post Hm Hf Hp He Hm' Hf'.
  split.
  - unfold create. fold core_name.
    apply bind_raise.
    rewrite create_connect_absent with (1 := Hm).
    rewrite Hf.
    change (ApiPost (url cfg ++ "/api/" ++ "cores")
                    (Some (create_body core_name))) with post.
    cbv zeta. rewrite Hp; simpl. rewrite He, Hm'; simpl.
    rewrite Hf'. reflexivity.
  - rewrite make_connection_run in Hm, Hm'.
    injection Hm as _ <- _. injection Hm' as _ <- _. reflexivity.
Qed.

Lemma create_unreachable_after_creation_witness :
  let data_dict := fields_only "r" [col "age" "integer"] in
  let w := [Raised (SolrError "404"); accepted; Raised (SolrError "404")] in
  let post := ApiPost "http://solr/api/cores"
                (Some [[("name", VStr "ds_r");
                        ("configSet", VStr "datastore_resource")]]) in
  let sent := ([(Ping conn_r, Raised (SolrError "404"))]
               ++ (post, accepted)
                  :: [(Ping conn_r, Raised (SolrError "404"))])%list in
  create (scripted accepted) test_cfg no_translation data_dict None w
  = Out (Raise (DatastoreSearchException
                  "Could not connect to SOLR core ds_r"))
        sent []
  /\ map fst sent = [Ping conn_r; post; Ping conn_r].
Proof.
  intros data_dict w post sent.
  apply (@create_unreachable_after_creation
           (list reply) (scripted accepted) test_cfg no_translation
           data_dict w [(Ping conn_r, Raised (SolrError "404"))]
           [(Ping conn_r, Raised (SolrError "404"))]
           [accepted; Raised (SolrError "404")]
           [Raised (SolrError "404")] []
           "Could not create SOLR core ds_r"
           "Could not connect to SOLR core ds_r"
           {| status := None; fields := None; error := None;
              ds_fields := None |});
    reflexivity.
Defined.

(** ** [delete] without a core, and without filters *)

(** X5. [delete] on a core that does not answer the ping (it raises a
    SolrError or answers without status OK) is a no-op: it returns [None]
    without error, whatever the filters, and the ping is its only
    request. *)
Theorem delete_absent_core_is_noop
    (World : Type) (respond : call -> World -> reply * World)
    (cfg : Config) (gettext : string -> string)
    (data_dict : DataDict) (w : World) :
  let ping := Ping (url cfg ++ "/solr/" ++ core_name_of cfg data_dict) in
  ping_ok (fst (respond ping w)) = false ->
  (forall e, fst (respond ping w) = Raised e -> exists arg, e = SolrError arg) ->
  delete respond cfg gettext data_dict None w
  = Out (Ok PyNone) [(ping, fst (respond ping w))] (snd (respond ping w)).
Proof.
  intros ping P S.
  assert (Hm : _make_connection respond cfg (core_name_of cfg data_dict) w
               = Out (Ok None) [(ping, fst (respond ping w))]
                     (snd (respond ping w))).
  { rewrite make_connection_run. fold (core_url cfg (core_name_of cfg data_dict)).
    unfold ping, core_url in *.
    destruct (fst (respond _ w)) as [e|x].
    - destruct (S e eq_refl) as (arg & ->); reflexivity.
    - rewrite P; reflexivity. }
  unfold delete, connect.
  rewrite bind_ok with (1 := Hm); reflexivity.
Qed.

Lemma delete_absent_core_witness :
  let data_dict := {| resource_id := Some "r"; dd_fields := None;
                      records := None;
                      filters := Some [("year", VStr "2020")] |} in
  delete (scripted accepted) test_cfg no_translation data_dict None
    [json (Some "DOWN") None None]
  = Out (Ok PyNone) [(Ping conn_r, json (Some "DOWN") None None)] [].
Proof.
  intro data_dict.
  apply (@delete_absent_core_is_noop
           (list reply) (scripted accepted) test_cfg no_translation
           data_dict [json (Some "DOWN") None None]).
  - reflexivity.
  - discriminate.
Defined.



(** ** What [delete] may raise *)

Lemma truncate_length (s : string) : String.length (truncate s) <= MAX_ERR_LEN.
Proof.
  unfold truncate. generalize MAX_ERR_LEN as n.
  intro n; revert s; induction n as [|n IH]; intros [|c s]; simpl; try lia.
  specialize (IH s); lia.
Qed.

Ltac fmt_case IH :=
  simpl in *;
  repeat match goal with
    | H : Raise _ = Raise _ |- _ => injection H as <-; eexists; reflexivity
    | H : Ok _ = Raise _ |- _ => discriminate H
    | H : result_map _ ?r = Raise _ |- _ =>
        destruct r eqn:?; simpl in H;
        [discriminate H
        |injection H as <-; eapply IH; [|eassumption]; simpl in *; lia]
    | H : match ?a with [] => _ | _ :: _ => _ end = Raise _ |- _ =>
        destruct a; simpl in H
    end.

(** Formatting a message fails with a TypeError or a ValueError only. *)
Lemma py_format_raises (n : nat) :
  forall fmt args e,
    String.length fmt <= n ->
    py_format fmt args = Raise e -> exists what, e = OtherError what.
Proof.
  induction n as [|n IH]; intros fmt args e L E.
  - destruct fmt; [|simpl in L; lia]. fmt_case IH.
  - destruct fmt as [|c rest]; [fmt_case IH|].
    destruct c as [[] [] [] [] [] [] [] []]; try solve [fmt_case IH].
    destruct rest as [|c2 rest2]; [fmt_case IH|].
    destruct c2 as [[] [] [] [] [] [] [] []]; solve [fmt_case IH].
Qed.

Section RaisesOnly.
Variable World : Type.
Variable respond : call -> World -> reply * World.
Variable P : exn -> Prop.
Hypothesis transport : forall c w e, fst (respond c w) = Raised e -> P e.

Lemma ro_ret {A} (a : A) : raises_only P (@ret World A a).
Proof. intros w e E; discriminate E. Qed.

Lemma ro_raise {A} e : P e -> raises_only P (@raise World A e).
Proof. intros Pe w e' E; injection E as <-; exact Pe. Qed.

Lemma ro_lift {A} (r : result A) :
  (forall e, r = Raise e -> P e) -> raises_only P (@lift World A r).
Proof.
  intros H; destruct r; [apply ro_ret | apply ro_raise; auto].
Qed.

Lemma ro_request c : raises_only P (request respond c).
Proof.
  intros w e; unfold request.
  pose proof (transport c w) as T.
  destruct (respond c w) as [[e0|x] w']; simpl in *; intro E;
    [injection E as <-; auto | discriminate E].
Qed.

Lemma ro_bind {A B} (m : M World A) (k : A -> M World B) :
  raises_only P m ->
  (forall a, returns m a -> raises_only P (k a)) ->
  raises_only P (bind m k).
Proof.
  intros Rm Rk w e; unfold bind.
  destruct (res (m w)) as [a|e0] eqn:E; simpl; intro H.
  - eapply Rk; [exists w; exact E | exact H].
  - injection H as <-; eapply Rm; eauto.
Qed.

Lemma ro_try {A} (m : M World A) (h : string -> M World A) :
  raises_only P m -> (forall arg, raises_only P (h arg)) ->
  raises_only P (try_except_SolrError m h).
Proof.
  intros Rm Rh w e; unfold try_except_SolrError.
  destruct (res (m w)) as [a|e0] eqn:E; simpl.
  - rewrite E; discriminate.
  - destruct e0; simpl; try (rewrite E; intro H; injection H as <-;
                             eapply Rm; eauto).
    intro H; eapply Rh; eauto.
Qed.

Lemma ro_for_each {A} (l : list A) (body : A -> M World unit) :
  (forall x, In x l -> raises_only P (body x)) ->
  raises_only P (for_each l body).
Proof.
  induction l as [|x l IH]; simpl; intro H.
  - apply ro_ret.
  - apply ro_bind; [apply H; now left|].
    intros _ _; apply IH; intros y Iy; apply H; now right.
Qed.

Lemma returns_lift {A} (r : result A) (a : A) :
  returns (@lift World A r) a -> r = Ok a.
Proof. intros (w & E); destruct r; simpl in E; congruence. Qed.

Lemma ro_make_connection cfg core_name :
  raises_only P (_make_connection respond cfg core_name).
Proof.
  unfold _make_connection.
  apply ro_try; [|intro; apply ro_ret].
  apply ro_bind; [apply ro_request|].
  intros x _. rewrite status_OK_eqb.
  destruct (match status x with Some s => _ | None => _ end); apply ro_ret.
Qed.
End RaisesOnly.

Lemma not_backend_exception_short (e : exn) :
  (forall msg, e <> DatastoreSearchException msg) -> short_message e.
Proof. intros N msg E; exfalso; exact (N msg E). Qed.

Lemma format_error_short fmt args e :
  py_format fmt args = Raise e -> short_message e.
Proof.
  intro E. destruct (@py_format_raises (String.length fmt) fmt args e
                       (le_n _) E) as (what & ->).
  intros msg X; discriminate X.
Qed.

(** X7. With debug on, and a transport that does not itself raise the
    backend's exception, the message of every DatastoreSearchException
    that [delete] raises is at most MAX_ERR_LEN characters long. *)
Theorem delete_debug_messages_are_bounded
    (World : Type) (respond : call -> World -> reply * World)
    (cfg : Config) (gettext : string -> string)
    (data_dict : DataDict) (connection : option Solr) (w : World)
    (msg : string) :
  debug cfg = true ->
  transport_errors_only respond ->
  res (delete respond cfg gettext data_dict connection w)
  = Raise (DatastoreSearchException msg) ->
  String.length msg <= MAX_ERR_LEN.
Proof.
  intros Hd Ht E.
  assert (T : forall c w e, fst (respond c w) = Raised e -> short_message e).
  { intros c w0 e R m X; subst e. exfalso; exact (Ht c w0 m R). }
  assert (Sh : forall errmsg detail,
             short_message (DatastoreSearchException (shown cfg errmsg detail))).
  { intros errmsg detail m X; injection X as <-.
    unfold shown; rewrite Hd; apply truncate_length. }
  assert (R : raises_only short_message
                (delete respond cfg gettext data_dict connection)).
  { unfold delete, connect.
    apply ro_bind.
    { destruct connection; [apply ro_ret|now apply ro_make_connection]. }
    intros [conn|] _; [|apply ro_ret].
    cbv zeta. destruct (negb (truthy _)).
    - apply ro_bind; [apply ro_lift; apply format_error_short|].
      intros errmsg _.
      apply ro_bind.
      { apply ro_try; [|intro; apply ro_raise; apply Sh].
        apply ro_bind; [now apply ro_request | intros; apply ro_ret]. }
      intros _ _. apply ro_bind; [now apply ro_request|].
      intros _ _. apply ro_bind.
      { unfold _send_api_request; simpl. now apply ro_request. }
      intros x _. destruct (error x); [apply ro_raise; apply Sh|apply ro_ret].
    - apply ro_bind; [|intros; apply ro_ret].
      apply ro_for_each. intros [key value] _. unfold delete_filter.
      apply ro_bind; [apply ro_lift; apply format_error_short|].
      intros errmsg _.
      apply ro_try; [|intro; apply ro_raise; apply Sh].
      apply ro_bind; [now apply ro_request | intros; apply ro_ret]. }
  exact (R w _ E msg eq_refl).
Qed.

Lemma delete_debug_messages_witness :
  let cfg := {| url := "http://solr"; prefix := "ds_"; debug := true |} in
  let data_dict := {| resource_id := Some "r"; dd_fields := None;
                      records := None;
                      filters := Some [("year", VStr "2020")] |} in
  String.length "undefined field year" <= MAX_ERR_LEN.
Proof.
  intros cfg data_dict.
  apply (@delete_debug_messages_are_bounded
           unit (always (Raised (SolrError "undefined field year")))
           cfg no_translation data_dict (Some conn_r) tt
           "undefined field year").
  - reflexivity.
  - intros c u msg; discriminate.
  - reflexivity.
Defined.

(** X8. With debug off, and a transport that does not itself raise the
    backend's exception, every DatastoreSearchException that [delete]
    raises carries a message that [delete] built itself, for the core or
    for one of the filters: the text of the server's error is not shown. *)
Theorem delete_messages_are_generic_without_debug
    (World : Type) (respond : call -> World -> reply * World)
    (cfg : Config) (gettext : string -> string)
    (data_dict : DataDict) (connection : option Solr) (w : World)
    (msg : string) :
  debug cfg = false ->
  transport_errors_only respond ->
  res (delete respond cfg gettext data_dict connection w)
  = Raise (DatastoreSearchException msg) ->
  py_format (gettext "Could not delete SOLR core %s")
            [core_name_of cfg data_dict] = Ok msg
  \/ exists item,
       In item (match filters data_dict with Some d => d | None => [] end)
       /\ delete_errmsg gettext (core_name_of cfg data_dict) item = Ok msg.
Proof.
  intros Hd Ht E.
  set (core_name := core_name_of cfg data_dict) in *.
  set (fl := match filters data_dict with Some d => d | None => [] end) in *.
  set (G := generic_delete_message gettext core_name fl).
  assert (T : forall c w e, fst (respond c w) = Raised e -> G e).
  { intros c w0 e R m X; subst e. exfalso; exact (Ht c w0 m R). }
  assert (Fe : forall fmt args e, py_format fmt args = Raise e -> G e).
  { intros fmt args e X.
    destruct (@py_format_raises (String.length fmt) fmt args e (le_n _) X)
      as (what & ->).
    intros m Y; discriminate Y. }
  assert (R : raises_only G
                (delete respond cfg gettext data_dict connection)).
  { unfold delete, connect. fold core_name.
    apply ro_bind.
    { destruct connection; [apply ro_ret|now apply ro_make_connection]. }
    intros [conn|] _; [|apply ro_ret].
    cbv zeta. fold fl. destruct (negb (truthy fl)).
    - apply ro_bind; [apply ro_lift; apply Fe|].
      intros errmsg Hr. apply returns_lift in Hr.
      assert (Sh : forall detail,
                 G (DatastoreSearchException (shown cfg errmsg detail))).
      { intros detail m X; injection X as <-.
        unfold shown; rewrite Hd; simpl. left; exact Hr. }
      apply ro_bind.
      { apply ro_try; [|intro; apply ro_raise; apply Sh].
        apply ro_bind; [now apply ro_request | intros; apply ro_ret]. }
      intros _ _. apply ro_bind; [now apply ro_request|].
      intros _ _. apply ro_bind.
      { unfold _send_api_request; simpl. now apply ro_request. }
      intros x _. destruct (error x); [apply ro_raise; apply Sh|apply ro_ret].
    - apply ro_bind; [|intros; apply ro_ret].
      apply ro_for_each. intros [key value] Hin. unfold delete_filter.
      apply ro_bind; [apply ro_lift; apply Fe|].
      intros errmsg Hr. apply returns_lift in Hr.
      apply ro_try;
        [apply ro_bind; [now apply ro_request | intros; apply ro_ret]|].
      intro arg; apply ro_raise. intros m X; injection X as <-.
      unfold shown; rewrite Hd; simpl. right.
      exists (key, value); split; [exact Hin | exact Hr]. }
  exact (R w _ E msg eq_refl).
Qed.

Lemma delete_messages_generic_witness :
  let data_dict := {| resource_id := Some "r"; dd_fields := None;
                      records := None;
                      filters := Some [("year", VStr "2020")] |} in
  py_format (no_translation "Could not delete SOLR core %s") ["ds_r"]
  = Ok "Could not delete records year,2020 in SOLR core ds_r"
  \/ exists item,
       In item [("year", VStr "2020")]
       /\ delete_errmsg no_translation "ds_r" item
          = Ok "Could not delete records year,2020 in SOLR core ds_r".
Proof.
  intro data_dict.
  apply (@delete_messages_are_generic_without_debug
           unit (always (Raised (SolrError "undefined field year")))
           test_cfg no_translation data_dict (Some conn_r) tt
           "Could not delete records year,2020 in SOLR core ds_r").
  - reflexivity.
  - intros c u msg; discriminate.
  - reflexivity.
Defined.

(** ** [upsert] *)

Lemma in_trace_bind {World A B} (m : M World A) (k : A -> M World B) w ev :
  In ev (trace (bind m k w)) ->
  In ev (trace (m w))
  \/ exists a, res (m w) = Ok a /\ In ev (trace (k a (final (m w)))).
Proof.
  unfold bind. destruct (res (m w)) as [a|e]; simpl; [|now left].
  intro I; apply in_app_or in I as [I|I]; [now left|right; eauto].
Qed.

Lemma avoids_in {World A} p (m : M World A) w ev :
  avoids p m -> In ev (trace (m w)) -> p ev = false.
Proof.
  intros Q I. destruct (p ev) eqn:E; [|reflexivity].
  assert (X : In ev (filter p (trace (m w)))) by (apply filter_In; auto).
  rewrite Q in X; contradiction.
Qed.

(** X9. Once connected, [upsert] with an empty list of records makes no
    further request (no add, no commit) and returns [None]; with no
    [records] entry at all it raises KeyError, and it does so only after
    the connection phase, which may have created the core. *)
Theorem upsert_without_records
    (World : Type) (respond : call -> World -> reply * World)
    (cfg : Config) (gettext : string -> string)
    (data_dict : DataDict) (connection : option Solr) (w : World)
    (conn : Solr) (evs0 : list event) (w0 : World) :
  upsert_connect respond cfg gettext data_dict connection w
  = Out (Ok conn) evs0 w0 ->
  (records data_dict = Some [] ->
   upsert respond cfg gettext data_dict connection w
   = Out (Ok PyNone) evs0 w0)
  /\ (records data_dict = None ->
      upsert respond cfg gettext data_dict connection w
      = Out (Raise (KeyError "records")) evs0 w0).
Proof.
  intro Hc; split; intro Hr; unfold upsert;
    rewrite bind_ok with (1 := Hc); rewrite Hr; simpl;
    now rewrite app_nil_r.
Qed.

Lemma upsert_without_records_witness :
  let data_dict := {| resource_id := Some "r"; dd_fields := None;
                      records := Some []; filters := None |} in
  (records data_dict = Some [] ->
   upsert (scripted accepted) test_cfg no_translation data_dict None [pong]
   = Out (Ok PyNone) [(Ping conn_r, pong)] [])
  /\ (records data_dict = None ->
      upsert (scripted accepted) test_cfg no_translation data_dict None [pong]
      = Out (Raise (KeyError "records")) [(Ping conn_r, pong)] []).
Proof.
  intro data_dict.
  apply (@upsert_without_records
           (list reply) (scripted accepted) test_cfg no_translation
           data_dict None [pong] conn_r [(Ping conn_r, pong)] []).
  reflexivity.
Defined.

Section UpsertSchema.
Variable World : Type.
Variable respond : call -> World -> reply * World.
Variable cfg : Config.
Variable gettext : string -> string.

(** The schema-mutation requests of [upsert] are those of the [create] it
    calls, for the fields of the DataStore that are not default fields. *)
Lemma upsert_posts_from_create data_dict connection w ev :
  In ev (trace (upsert respond cfg gettext data_dict connection w)) ->
  is_schema_post ev = true ->
  exists fs w',
    In ev (trace (create respond cfg gettext
                    {| resource_id := resource_id data_dict;
                       dd_fields :=
                         Some (filter
                                 (fun f =>
                                    negb (str_in (id f) default_solr_fields))
                                 fs);
                       records := None;
                       filters := None |}
                    None w')).
Proof.
  intros I P. unfold upsert in I.
  apply in_trace_bind in I as [I|(conn & _ & I)].
  - unfold upsert_connect in I.
    apply in_trace_bind in I as [I|(c0 & _ & I)].
    + eapply avoids_in in I;
        [|apply connect_avoids with (p := is_schema_post); reflexivity].
      rewrite I in P; discriminate P.
    + apply in_trace_bind in I as [I|(c1 & _ & I)].
      * destruct c0 as [c0|]; [contradiction I|].
        apply in_trace_bind in I as [I|(ds & _ & I)].
        { assert (Q : avoids is_schema_post
                        (request respond
                           (DatastoreSearch (resource_id data_dict) 0)))
            by through_avoids.
          eapply avoids_in in I; [|exact Q].
          rewrite I in P; discriminate P. }
        apply in_trace_bind in I as [I|(fs & _ & I)].
        { destruct (ds_fields ds); contradiction I. }
        apply in_trace_bind in I as [I|(v & _ & I)].
        { eauto. }
        eapply avoids_in in I;
          [|apply make_connection_avoids with (p := is_schema_post);
            reflexivity].
        rewrite I in P; discriminate P.
      * destruct c1 as [c1|]; [contradiction I|].
        unfold bind, lift in I.
        destruct (py_format _ _); contradiction I.
  - assert (Q : avoids is_schema_post
                  (fun w0 : World =>
                     bind (match records data_dict with
                           | Some l => ret l
                           | None => raise (KeyError "records")
                           end)
                          (fun records =>
                             if truthy records
                             then bind (for_each records
                                          (add_record respond cfg gettext conn
                                             (core_name_of cfg data_dict)))
                                       (fun _ =>
                                          bind (request respond
                                                  (Commit conn false))
                                               (fun _ => ret PyNone))
                             else ret PyNone) w0)).
    { intro w0. revert w0.
      change (avoids is_schema_post
                (bind (match records data_dict with
                       | Some l => ret l
                       | None => raise (KeyError "records")
                       end)
                      (fun records =>
                         if truthy records
                         then bind (for_each records
                                      (add_record respond cfg gettext conn
                                         (core_name_of cfg data_dict)))
                                   (fun _ =>
                                      bind (request respond
                                              (Commit conn false))
                                           (fun _ => ret PyNone))
                         else ret PyNone))).
      unfold add_record. through_avoids. }
    eapply avoids_in in I; [|exact Q].
    rewrite I in P; discriminate P.
Qed.
End UpsertSchema.

(** X10. No schema-mutation request made in the course of [upsert] names a
    default field: the fields handed to [create] have been filtered. *)
Theorem upsert_never_names_default_field
    (World : Type) (respond : call -> World -> reply * World)
    (cfg : Config) (gettext : string -> string)
    (data_dict : DataDict) (connection : option Solr) (w : World)
    (conn : Solr) (cmd : schema_cmd) (f : solr_field) (rep : reply)
    (name : value) :
  In (SchemaPost conn cmd f, rep)
     (trace (upsert respond cfg gettext data_dict connection w)) ->
  dict_get "name" f = Some name ->
  ~ in_defaults name.
Proof.
  intros I N.
  destruct (upsert_posts_from_create respond cfg gettext data_dict
              connection w _ I eq_refl) as (fs & w' & Ic).
  destruct (create_posts_in_plan respond cfg gettext _ None w' _ Ic eq_refl)
    as (c & r & fs' & d & _ & _ & Hd & [cmd' g] & Is & E).
  unfold post in E; simpl in E; injection E as <- <- <-.
  apply plan_in in Is.
  destruct (diff_fields_from _ _ Hd) as (keyed & K & KF & A & U & _).
  unfold in_defaults.
  destruct cmd.
  - destruct (A f Is) as (x & t & Ix & _ & _ & ->).
    simpl in N; injection N as <-.
    unfold desired in Ix; simpl in Ix.
    apply filter_In in Ix as (_ & D). apply negb_true_iff in D.
    rewrite value_in_str. congruence.
  - destruct (U f Is) as (x & t & live & _ & G & _ & _ & _ & ->).
    apply dict_get_in in G. destruct (KF _ _ G) as (Nl & D & _).
    rewrite dict_get_set_other in N by exact name_neq_type.
    congruence.
  - destruct (diff_fields_removals _ _ _ Hd Is) as (n & -> & D & _).
    simpl in N; injection N as <-. exact D.
Qed.

Lemma upsert_never_names_default_witness :
  let data_dict := {| resource_id := Some "r"; dd_fields := None;
                      records := Some [[("_id", VStr "1")]];
                      filters := None |} in
  ~ in_defaults (VStr "age").
Proof.
  intro data_dict.
  apply (@upsert_never_names_default_field
           (list reply) (scripted accepted) test_cfg no_translation
           data_dict None
           [Raised (SolrError "404");
            ds_result [col "_id" "integer"; col "age" "integer"];
            Raised (SolrError "404"); accepted; pong;
            schema_is [id_field]; accepted; pong]
           conn_r AddField (new_field "age" "int") accepted (VStr "age")).
  - vm_compute. do 6 right; left; reflexivity.
  - reflexivity.
Defined.

(** ** What the methods never request *)

Section Never.
Variable World : Type.
Variable respond : call -> World -> reply * World.
Variable cfg : Config.
Variable gettext : string -> string.

Lemma create_connect_avoids p core_name connection :
  (forall c r, p (Ping c, r) = false) ->
  (forall to body r, p (ApiPost to (Some body), r) = false) ->
  avoids p (create_connect respond cfg gettext core_name connection).
Proof.
  intros Np Na. unfold create_connect.
  apply avoids_bind; [now apply connect_avoids|].
  intros [c|]; apply avoids_bind;
    try (intros [errmsg [c'|]]; through_avoids); try apply avoids_ret.
  apply avoids_bind; [apply avoids_lift|]. intro errmsg.
  apply avoids_bind.
  { unfold _send_api_request; simpl.
    apply avoids_request; intro; apply Na. }
  intro resp. destruct (error resp); [apply avoids_raise|].
  apply avoids_bind; [now apply make_connection_avoids|].
  intro; apply avoids_ret.
Qed.

Lemma create_avoids p data_dict connection :
  (forall c r, p (Ping c, r) = false) ->
  (forall to body r, p (ApiPost to (Some body), r) = false) ->
  (forall c r, p (SchemaFields c, r) = false) ->
  (forall c cmd f r, p (SchemaPost c cmd f, r) = false) ->
  avoids p (create respond cfg gettext data_dict connection).
Proof.
  intros Np Na Nr Nw w.
  rewrite create_trace_split by assumption.
  now apply create_connect_avoids.
Qed.
End Never.

(** X11. [create] only pings, creates a core and reads and writes the
    schema: it never adds, deletes or commits a document, never unloads a
    core and never calls datastore_search. *)
Theorem create_requests_are_schema_level
    (World : Type) (respond : call -> World -> reply * World)
    (cfg : Config) (gettext : string -> string)
    (data_dict : DataDict) (connection : option Solr) (w : World) :
  filter outside_create
    (trace (create respond cfg gettext data_dict connection w)) = [].
Proof. apply create_avoids; reflexivity. Qed.

(** X12. [delete] only pings, deletes by query, commits and posts to the
    API without a body (the unload): it never reads or writes the schema,
    never creates a core, never adds a document. *)
Theorem delete_requests_are_deletions
    (World : Type) (respond : call -> World -> reply * World)
    (cfg : Config) (gettext : string -> string)
    (data_dict : DataDict) (connection : option Solr) (w : World) :
  filter outside_delete
    (trace (delete respond cfg gettext data_dict connection w)) = [].
Proof.
  revert w.
  change (avoids outside_delete
            (delete respond cfg gettext data_dict connection)).
  unfold delete.
  apply avoids_bind; [apply connect_avoids; reflexivity|].
  intros [conn|]; [|apply avoids_ret].
  cbv zeta. destruct (negb (truthy _)).
  - unfold _send_api_request; simpl. through_avoids.
  - unfold delete_filter. through_avoids.
Qed.

(** X13. [upsert] never deletes a document and never unloads a core: its
    only request to the API is the creation of a core. *)
Theorem upsert_never_destroys
    (World : Type) (respond : call -> World -> reply * World)
    (cfg : Config) (gettext : string -> string)
    (data_dict : DataDict) (connection : option Solr) (w : World) :
  filter destroys
    (trace (upsert respond cfg gettext data_dict connection w)) = [].
Proof.
  revert w.
  change (avoids destroys (upsert respond cfg gettext data_dict connection)).
  unfold upsert, upsert_connect.
  apply avoids_bind.
  { apply avoids_bind; [apply connect_avoids; reflexivity|].
    intros [c|]; (apply avoids_bind; [|intros [c'|]; through_avoids]).
    - apply avoids_ret.
    - apply avoids_bind; [through_avoids|]. intro ds.
      apply avoids_bind; [through_avoids|]. intro fs.
      apply avoids_bind; [apply create_avoids; reflexivity|].
      intro; apply make_connection_avoids; reflexivity. }
  intro conn. unfold add_record. through_avoids.
Qed.

(** X14. With a connection passed in, every request of [create] is a read
    or a write of the schema through that connection: it makes no ping and
    creates no core, whatever the resource id. *)
Theorem create_uses_the_connection_passed
    (World : Type) (respond : call -> World -> reply * World)
    (cfg : Config) (gettext : string -> string)
    (data_dict : DataDict) (conn : Solr) (w : World) :
  filter (off_connection conn)
    (trace (create respond cfg gettext data_dict (Some conn) w)) = [].
Proof.
  unfold create.
  rewrite bind_ok
    with (1 := create_connect_given respond cfg gettext
                 (core_name_of cfg data_dict) conn w); simpl.
  revert w.
  change (avoids (off_connection conn)
            (bind (read_schema respond cfg None conn)
               (fun solr_fields =>
                  bind (lift (diff_fields solr_fields
                                (match dd_fields data_dict with
                                 | Some l => l
                                 | None => []
                                 end)))
                    (fun d =>
                       bind (apply_diff respond cfg gettext conn
                               (core_name_of cfg data_dict) d)
                         (fun _ =>
                            if truthy (to_add d) || truthy (to_update d)
                               || truthy (to_remove d)
                            then ret PyNone else ret PyNone))))).
  apply avoids_bind.
  { apply read_schema_avoids. intro r; unfold off_connection; simpl.
    now rewrite String.eqb_refl. }
  intro fs. apply avoids_bind; [apply avoids_lift|]. intro d.
  apply avoids_bind.
  { apply apply_diff_avoids. intros cmd f r; unfold off_connection; simpl.
    now rewrite String.eqb_refl. }
  intro; through_avoids.
Qed.

(** ** The diff, field by field *)

Lemma dict_set_keys {K V : Type} `{KeyOk K} (k : K) (v : V) (d : dict K V) :
  dict_keys (dict_set k v d)
  = if dict_mem k d then dict_keys d else (dict_keys d ++ [k])%list.
Proof.
  unfold dict_mem, dict_keys.
  induction d as [|[k' v'] d IH]; simpl; [reflexivity|].
  destruct (key_eqb k k') eqn:E; simpl; [reflexivity|].
  rewrite IH. destruct (dict_get k d); reflexivity.
Qed.

Lemma dict_mem_keys {K V : Type} `{KeyOk K} (k : K) (d : dict K V) :
  dict_mem k d = true <-> In k (dict_keys d).
Proof.
  unfold dict_mem; split.
  - destruct (dict_get k d) as [v|] eqn:G; [|discriminate].
    intros _. apply dict_get_in in G.
    unfold dict_keys. change k with (fst (k, v)). now apply in_map.
  - intro I. apply dict_keys_get in I as (v & ->). reflexivity.
Qed.

Lemma dict_set_keys_NoDup {K V : Type} `{KeyOk K} (k : K) (v : V)
    (d : dict K V) :
  NoDup (dict_keys d) -> NoDup (dict_keys (dict_set k v d)).
Proof.
  intro N. rewrite dict_set_keys.
  destruct (dict_mem k d) eqn:M; [exact N|].
  apply NoDup_app; [exact N | repeat constructor; intros [] |].
  intros x Ix [<-|[]]. apply dict_mem_keys in Ix. congruence.
Qed.

Lemma key_solr_fields_NoDup fs keyed0 keyed :
  key_solr_fields fs keyed0 = Ok keyed ->
  NoDup (dict_keys keyed0) -> NoDup (dict_keys keyed).
Proof.
  revert keyed0; induction fs as [|f fs IH]; simpl; intros keyed0 E N.
  - injection E as <-; exact N.
  - unfold getitem in E.
    destruct (dict_get "name" f) as [n|]; [|discriminate].
    destruct (value_in n default_solr_fields).
    + eapply IH; eauto.
    + eapply IH; [exact E|]. now apply dict_set_keys_NoDup.
Qed.

(** The keys of [keyed_solr_fields] are the names of the schema that are
    not default names. *)
Lemma keyed_is_live fs keyed name :
  key_solr_fields fs [] = Ok keyed ->
  dict_mem name keyed = is_live fs name.
Proof.
  intro K.
  assert (KF : keyed_from fs keyed).
  { eapply key_solr_fields_from; eauto; [intros n f []|apply incl_refl]. }
  destruct (is_live fs name) eqn:L.
  - unfold is_live in L. apply existsb_exists in L as (f & If & Hf).
    destruct (dict_get "name" f) as [n|] eqn:N; [|discriminate].
    apply andb_true_iff in Hf as (E & D).
    apply value_eqb_eq in E; subst n. apply negb_true_iff in D.
    apply (key_solr_fields_mem _ _ K). left; exists f; auto.
  - destruct (dict_mem name keyed) eqn:M; [|reflexivity].
    unfold dict_mem in M.
    destruct (dict_get name keyed) as [f|] eqn:G; [|discriminate].
    apply dict_get_in in G. destruct (KF _ _ G) as (N & D & If).
    assert (X : is_live fs name = true).
    { unfold is_live. apply existsb_exists. exists f; split; [exact If|].
      rewrite N, D. rewrite (proj2 (value_eqb_eq name name) eq_refl).
      reflexivity. }
    congruence.
Qed.

Lemma map_type_mapped t x : map_type t = Ok x -> mapped t = x.
Proof.
  unfold map_type, mapped.
  destruct (dict_get t field_type_map); congruence.
Qed.

Lemma classify_new keyed ds acc l :
  classify keyed ds acc = Ok l ->
  new_fields l
  = (new_fields acc
     ++ map (fun x => new_field (id x) (mapped (type x)))
            (filter (fun x => negb (dict_mem (VStr (id x)) keyed)) ds))%list.
Proof.
  revert acc; induction ds as [|x ds IH]; intros acc E.
  - simpl in E; injection E as <-. simpl. now rewrite app_nil_r.
  - simpl in E. simpl filter. unfold dict_mem at 1.
    destruct (dict_get (VStr (id x)) keyed) as [live|];
      destruct (map_type (type x)) as [t|] eqn:T; try discriminate.
    + unfold getitem in E.
      destruct (dict_get "type" live); [|discriminate].
      destruct (value_eqb (VStr t) v); apply IH in E; exact E.
    + apply IH in E. rewrite E; simpl.
      rewrite (map_type_mapped _ T), <- app_assoc. reflexivity.
Qed.

(** X15. The add-field bodies of a diff are, in the order of the desired
    fields, one body per desired field whose id is not the name of a live
    field other than a default one (a desired field that bears a default
    name is therefore among them), each with the mapped type and with
    [stored] and [indexed] true. *)
Theorem diff_adds_each_missing_field_in_order
    (fs : list solr_field) (ds : list Field) (d : SchemaDiff) :
  diff_fields fs ds = Ok d ->
  to_add d
  = map (fun x =>
           [("name", VStr (id x)); ("type", VStr (mapped (type x)));
            ("stored", VBool true); ("indexed", VBool true)])
        (filter (fun x => negb (is_live fs (VStr (id x)))) ds).
Proof.
  unfold diff_fields.
  destruct (key_solr_fields fs []) as [keyed|] eqn:K; [|discriminate].
  destruct (classify keyed ds no_lists) as [l|] eqn:C; [|discriminate].
  intro E; injection E as <-; simpl.
  rewrite (classify_new _ _ _ C); simpl.
  f_equal. apply filter_ext. intro x.
  now rewrite (keyed_is_live _ _ K).
Qed.

Lemma diff_adds_witness :
  let fs := [id_field; live_field "age" "int"] in
  let ds := [col "name" "text"; col "age" "integer"; col "_id" "integer"] in
  to_add {| to_add := [new_field "name" "text"; new_field "_id" "int"];
            to_update := []; to_remove := [] |}
  = map (fun x =>
           [("name", VStr (id x)); ("type", VStr (mapped (type x)));
            ("stored", VBool true); ("indexed", VBool true)])
        (filter (fun x => negb (is_live fs (VStr (id x)))) ds).
Proof.
  intros fs ds.
  apply (@diff_adds_each_missing_field_in_order fs ds).
  reflexivity.
Defined.

Lemma key_solr_fields_all_default fs keyed0 :
  (forall f, In f fs ->
             exists n, dict_get "name" f = Some n /\ in_defaults n) ->
  key_solr_fields fs keyed0 = Ok keyed0.
Proof.
  induction fs as [|f fs IH]; simpl; intro H; [reflexivity|].
  destruct (H f (or_introl eq_refl)) as (n & N & D).
  unfold getitem; rewrite N. unfold in_defaults in D; rewrite D.
  apply IH; intros g Ig; apply H; now right.
Qed.

Lemma classify_no_live ds acc :
  (forall x, In x ds -> dict_get (type x) field_type_map <> None) ->
  classify [] ds acc
  = Ok {| ds_field_ids := (ds_field_ids acc ++ wanted_ids ds)%list;
          new_fields :=
            (new_fields acc
             ++ map (fun x => new_field (id x) (mapped (type x))) ds)%list;
          updated_fields := updated_fields acc |}.
Proof.
  revert acc; induction ds as [|x ds IH]; intros acc H.
  - simpl. unfold wanted_ids; simpl. rewrite !app_nil_r.
    destruct acc; reflexivity.
  - cbn [classify dict_get].
    destruct (map_type (type x)) as [t|e] eqn:T.
    + rewrite IH by (intros y Iy; apply H; now right).
      cbn [ds_field_ids new_fields updated_fields map].
      rewrite (map_type_mapped _ T).
      unfold wanted_ids; cbn [map filter].
      destruct (str_in (id x) default_solr_fields); cbn [negb];
        rewrite <- ?app_assoc; reflexivity.
    + exfalso; apply (H x (or_introl eq_refl)).
      unfold map_type in T.
      destruct (dict_get (type x) field_type_map); [discriminate T|reflexivity].
Qed.

(** X16. Against a schema that has only default fields, as that of a core
    just created, and for desired fields whose types are all mapped, the
    diff succeeds and only adds: one add per desired field, in order, no
    replacement and no removal. *)
Theorem diff_of_fresh_core_only_adds
    (fs : list solr_field) (ds : list Field) :
  (forall f, In f fs ->
             exists n, dict_get "name" f = Some n /\ in_defaults n) ->
  (forall x, In x ds -> dict_get (type x) field_type_map <> None) ->
  diff_fields fs ds
  = Ok {| to_add := map (fun x => new_field (id x) (mapped (type x))) ds;
          to_update := [];
          to_remove := [] |}.
Proof.
  intros Hf Hd. unfold diff_fields.
  rewrite key_solr_fields_all_default by exact Hf.
  rewrite classify_no_live by exact Hd. reflexivity.
Qed.

Lemma diff_of_fresh_core_witness :
  let fs := [id_field; live_field "_version_" "plong";
             live_field "indexed_ts" "pdate"] in
  let ds := [col "name" "text"; col "age" "integer"] in
  diff_fields fs ds
  = Ok {| to_add := map (fun x => new_field (id x) (mapped (type x))) ds;
          to_update := [];
          to_remove := [] |}.
Proof.
  intros fs ds.
  apply diff_of_fresh_core_only_adds.
  - intros f [<-|[<-|[<-|[]]]]; eexists; split; reflexivity.
  - intros x [<-|[<-|[]]]; discriminate.
Defined.

Lemma NoDup_map_injective {A B} (f : A -> B) (l : list A) :
  (forall a b, f a = f b -> a = b) -> NoDup l -> NoDup (map f l).
Proof.
  intros Inj N; induction N as [|a l Na N IH]; simpl; constructor; auto.
  intro I; apply in_map_iff in I as (b & E & Ib).
  apply Inj in E; subst b; contradiction.
Qed.

(** X17. The removals of a diff have no duplicate, even when the schema
    lists a name twice, and they are complete: every live field whose name
    is neither a default name nor the id of a desired field is removed. *)
Theorem diff_removes_each_stale_field_once
    (fs : list solr_field) (ds : list Field) (d : SchemaDiff) :
  diff_fields fs ds = Ok d ->
  NoDup (to_remove d)
  /\ forall live name,
       In live fs ->
       dict_get "name" live = Some name ->
       ~ in_defaults name ->
       (forall x, In x ds -> name <> VStr (id x)) ->
       In [("name", name)] (to_remove d).
Proof.
  intro E.
  destruct (diff_fields_from _ _ E) as (keyed & K & KF & _ & _ & R).
  rewrite R; unfold removals. split.
  - apply NoDup_map_injective.
    + intros a b X; congruence.
    + apply NoDup_filter.
      apply (key_solr_fields_NoDup _ _ K). constructor.
  - intros live name Il N D W.
    apply in_map with (f := fun n : value => [("name", n)]).
    apply filter_In; split.
    + apply dict_mem_keys. apply (key_solr_fields_mem _ _ K).
      left; exists live. repeat split; auto.
      unfold in_defaults in D. destruct (value_in name default_solr_fields);
        [exfalso; auto | reflexivity].
    + apply negb_true_iff.
      destruct (value_in name (wanted_ids ds)) eqn:V; [|reflexivity].
      apply value_in_spec in V as (s & Is & ->).
      unfold wanted_ids in Is. apply filter_In in Is as (Is & _).
      apply in_map_iff in Is as (x & <- & Ix).
      exfalso; exact (W x Ix eq_refl).
Qed.

Lemma diff_removes_witness :
  let fs := [id_field; live_field "old" "text"; live_field "age" "int";
             live_field "old" "int"] in
  let ds := [col "age" "integer"] in
  let d := {| to_add := []; to_update := [];
              to_remove := [[("name", VStr "old")]] |} in
  NoDup (to_remove d)
  /\ forall live name,
       In live fs ->
       dict_get "name" live = Some name ->
       ~ in_defaults name ->
       (forall x, In x ds -> name <> VStr (id x)) ->
       In [("name", name)] (to_remove d).
Proof.
  intros fs ds d.
  apply (@diff_removes_each_stale_field_once fs ds d).
  reflexivity.
Defined.

Lemma find_app {A} (p : A -> bool) (l1 l2 : list A) :
  find p (l1 ++ l2)%list
  = match find p l1 with Some x => Some x | None => find p l2 end.
Proof.
  induction l1 as [|a l1 IH]; simpl; [reflexivity|].
  destruct (p a); auto.
Qed.

Lemma key_solr_fields_get fs keyed0 keyed name :
  key_solr_fields fs keyed0 = Ok keyed ->
  value_in name default_solr_fields = false ->
  dict_get name keyed
  = match last_named fs name with
    | Some f => Some f
    | None => dict_get name keyed0
    end.
Proof.
  intros E D. revert keyed0 E.
  induction fs as [|f fs IH]; intros keyed0 E.
  - simpl in E; injection E as <-; reflexivity.
  - simpl in E. unfold getitem in E.
    destruct (dict_get "name" f) as [m|] eqn:N; [|discriminate].
    unfold last_named; simpl rev. rewrite find_app; simpl find.
    fold (last_named fs name). rewrite N.
    destruct (value_in m default_solr_fields) eqn:Dm.
    + rewrite (IH _ E).
      destruct (last_named fs name); [reflexivity|].
      destruct (value_eqb m name) eqn:Q; [|reflexivity].
      apply value_eqb_eq in Q; congruence.
    + rewrite (IH _ E).
      destruct (last_named fs name); [reflexivity|].
      destruct (value_eqb m name) eqn:Q.
      * apply value_eqb_eq in Q; subst m. apply dict_get_set_same.
      * apply dict_get_set_other. intros ->.
        rewrite (proj2 (value_eqb_eq m m) eq_refl) in Q; discriminate.
Qed.

(** X18. The body of a replacement is built from the last field of that
    name in the schema read: when the schema lists a name twice, the later
    entry is the one compared and sent back. *)
Theorem diff_replaces_from_last_entry_of_name
    (fs : list solr_field) (ds : list Field) (d : SchemaDiff)
    (f : solr_field) :
  diff_fields fs ds = Ok d ->
  In f (to_update d) ->
  exists x t live,
    In x ds
    /\ last_named fs (VStr (id x)) = Some live
    /\ map_type (type x) = Ok t
    /\ dict_get "type" live <> Some (VStr t)
    /\ f = dict_set "type" (VStr t) live.
Proof.
  intros E I.
  destruct (diff_fields_from _ _ E) as (keyed & K & KF & _ & U & _).
  destruct (U f I) as (x & t & live & Ix & G & T & Nt & _ & ->).
  exists x, t, live. repeat split; auto.
  assert (D : value_in (VStr (id x)) default_solr_fields = false).
  { pose proof (dict_get_in _ _ G) as Gi. now destruct (KF _ _ Gi). }
  rewrite (key_solr_fields_get _ _ _ K D) in G.
  destruct (last_named fs (VStr (id x))); [exact G | discriminate G].
Qed.

Lemma diff_replaces_from_last_witness :
  let fs := [live_field "age" "int"; live_field "age" "text"] in
  let ds := [col "age" "integer"] in
  let f := dict_set "type" (VStr "int") (live_field "age" "text") in
  exists x t live,
    In x ds
    /\ last_named fs (VStr (id x)) = Some live
    /\ map_type (type x) = Ok t
    /\ dict_get "type" live <> Some (VStr t)
    /\ f = dict_set "type" (VStr t) live.
Proof.
  intros fs ds f.
  apply (@diff_replaces_from_last_entry_of_name fs ds
           {| to_add := []; to_update := [f]; to_remove := [] |} f).
  - reflexivity.
  - now left.
Defined.

Lemma key_solr_fields_succeeds fs keyed0 :
  (forall f, In f fs -> named f) ->
  exists keyed, key_solr_fields fs keyed0 = Ok keyed.
Proof.
  revert keyed0; induction fs as [|f fs IH]; simpl; intros keyed0 H; eauto.
  destruct (H f (or_introl eq_refl)) as (n & N).
  unfold getitem; rewrite N.
  destruct (value_in n default_solr_fields); apply IH; auto.
Qed.

Lemma classify_succeeds (keyed : dict value solr_field) ds acc :
  (forall n f, In (n, f) keyed -> dict_get "type" f <> None) ->
  (forall x, In x ds -> dict_get (type x) field_type_map <> None) ->
  exists l, classify keyed ds acc = Ok l.
Proof.
  intros Hk. revert acc; induction ds as [|x ds IH]; intros acc H.
  - simpl; eauto.
  - assert (Hds : forall y, In y ds ->
                            dict_get (type y) field_type_map <> None)
      by (intros y Iy; apply H; now right).
    assert (T : exists t, map_type (type x) = Ok t).
    { unfold map_type.
      destruct (dict_get (type x) field_type_map) eqn:Q; eauto.
      exfalso; exact (H x (or_introl eq_refl) Q). }
    destruct T as (t & T).
    cbn [classify]. rewrite T.
    destruct (dict_get (VStr (id x)) keyed) as [live|] eqn:G.
    + apply dict_get_in in G. specialize (Hk _ _ G).
      unfold getitem. destruct (dict_get "type" live); [|contradiction].
      destruct (value_eqb (VStr t) v); apply IH; exact Hds.
    + apply IH; exact Hds.
Qed.

(** X19. The diff succeeds whenever every field of the schema read has a
    [name] and a [type] and every desired type has an entry in
    [field_type_map]. *)
Theorem diff_fields_succeeds
    (fs : list solr_field) (ds : list Field) :
  (forall f, In f fs -> dict_get "name" f <> None) ->
  (forall f, In f fs -> dict_get "type" f <> None) ->
  (forall x, In x ds -> dict_get (type x) field_type_map <> None) ->
  exists d, diff_fields fs ds = Ok d.
Proof.
  intros Hn Ht Hm. unfold diff_fields.
  destruct (key_solr_fields_succeeds fs []) as (keyed & K).
  { intros f If. specialize (Hn f If). unfold named.
    destruct (dict_get "name" f); [eauto | contradiction]. }
  rewrite K.
  assert (KF : keyed_from fs keyed).
  { eapply key_solr_fields_from; eauto; [intros n f []|apply incl_refl]. }
  destruct (classify_succeeds keyed ds no_lists) as (l & C).
  - intros n f I. apply Ht. now destruct (KF _ _ I) as (_ & _ & If).
  - exact Hm.
  - rewrite C; eauto.
Qed.

Lemma diff_fields_succeeds_witness :
  exists d,
    diff_fields [id_field; live_field "age" "text"]
                [col "age" "integer"; col "name" "text"] = Ok d.
Proof.
  apply diff_fields_succeeds.
  - intros f [<-|[<-|[]]]; discriminate.
  - intros f [<-|[<-|[]]]; discriminate.
  - intros x [<-|[<-|[]]]; discriminate.
Defined.





(** ** More on [create] and [upsert] *)

(** X21. A schema read whose answer has no [fields] makes [create] raise
    KeyError right after the read, before any schema write. *)
Theorem create_schema_answer_without_fields
    (World : Type) (respond : call -> World -> reply * World)
    (cfg : Config) (gettext : string -> string)
    (data_dict : DataDict) (conn : Solr) (w w1 : World) (r : response) :
  respond (SchemaFields conn) w = (Returned r, w1) ->
  fields r = None ->
  create respond cfg gettext data_dict (Some conn) w
  = Out (Raise (KeyError "fields")) [(SchemaFields conn, Returned r)] w1.
Proof.
  intros R F. unfold create.
  rewrite bind_ok
    with (1 := create_connect_given respond cfg gettext
                 (core_name_of cfg data_dict) conn w); simpl.
  assert (Hs : read_schema respond cfg None conn w
               = Out (Raise (KeyError "fields"))
                     [(SchemaFields conn, Returned r)] w1).
  { unfold read_schema, try_except_SolrError, bind, request.
    rewrite R; simpl. rewrite F; reflexivity. }
  rewrite bind_raise with (1 := Hs); reflexivity.
Qed.

Lemma create_schema_answer_without_fields_witness :
  create (scripted accepted) test_cfg no_translation
    (fields_only "r" [col "age" "integer"]) (Some conn_r) [accepted]
  = Out (Raise (KeyError "fields")) [(SchemaFields conn_r, accepted)] [].
Proof.
  apply (@create_schema_answer_without_fields
           (list reply) (scripted accepted) test_cfg no_translation
           (fields_only "r" [col "age" "integer"]) conn_r [accepted] []
           {| status := None; fields := None; error := None;
              ds_fields := None |});
    reflexivity.
Defined.

(** X22. When the core was created by this very call, a SolrError on the
    schema read makes [create] raise DatastoreSearchException; with debug
    off its message is the one prepared for the creation of the core. *)
Theorem create_read_error_after_core_creation
    (World : Type) (respond : call -> World -> reply * World)
    (cfg : Config) (gettext : string -> string)
    (data_dict : DataDict) (w : World)
    (evs evs' : list event) (w1 w2 w3 w4 : World) (errmsg arg : string)
    (x : response) (conn : Solr) :
  let core_name := core_name_of cfg data_dict in
  let post := ApiPost (url cfg ++ "/api/cores")
                (Some [[("name", VStr core_name);
                        ("configSet", VStr "datastore_resource")]]) in
  _make_connection respond cfg core_name w = Out (Ok None) evs w1 ->
  py_format (gettext "Could not create SOLR core %s") [core_name]
  = Ok errmsg ->
  respond post w1 = (Returned x, w2) ->
  error x = None ->
  _make_connection respond cfg core_name w2 = Out (Ok (Some conn)) evs' w3 ->
  respond (SchemaFields conn) w3 = (Raised (SolrError arg), w4) ->
  create respond cfg gettext data_dict None w
  = Out (Raise (DatastoreSearchException
                  (if debug cfg then truncate arg else errmsg)))
        (evs ++ (post, Returned x) :: evs'
         ++ [(SchemaFields conn, Raised (SolrError arg))])
        w4.
Proof.
  intros core_name post Hm Hf Hp He Hm' Hr.
  assert (Hc : create_connect respond cfg gettext core_name None w
               = Out (Ok (Some errmsg, conn))
                     (evs ++ (post, Returned x) :: evs') w3).
  { rewrite create_connect_absent with (1 := Hm).
    rewrite Hf.
    change (ApiPost (url cfg ++ "/api/" ++ "cores")
                    (Some (create_body core_name))) with post.
    cbv zeta. rewrite Hp; simpl. rewrite He, Hm'; reflexivity. }
  unfold create. fold core_name.
  rewrite bind_ok with (1 := Hc); simpl.
  assert (Hs : read_schema respond cfg (Some errmsg) conn w3
               = Out (Raise (DatastoreSearchException
                               (if debug cfg then truncate arg else errmsg)))
                     [(SchemaFields conn, Raised (SolrError arg))] w4).
  { unfold read_schema, try_except_SolrError, bind, request.
    rewrite Hr; simpl. destruct (debug cfg); reflexivity. }
  rewrite bind_raise with (1 := Hs); simpl.
  now rewrite <- app_assoc.
Qed.

Lemma create_read_error_after_core_creation_witness :
  let post := ApiPost "http://solr/api/cores"
                (Some [[("name", VStr "ds_r");
                        ("configSet", VStr "datastore_resource")]]) in
  create (scripted accepted) test_cfg no_translation
    (fields_only "r" [col "age" "integer"]) None
    [Raised (SolrError "404"); accepted; pong; Raised (SolrError "HTTP 500")]
  = Out (Raise (DatastoreSearchException "Could not create SOLR core ds_r"))
        ([(Ping conn_r, Raised (SolrError "404"))]
         ++ (post, accepted) :: [(Ping conn_r, pong)]
         ++ [(SchemaFields conn_r, Raised (SolrError "HTTP 500"))])
        [].
Proof.
  intro post.
  apply (@create_read_error_after_core_creation
           (list reply) (scripted accepted) test_cfg no_translation
           (fields_only "r" [col "age" "integer"])
           [Raised (SolrError "404"); accepted; pong;
            Raised (SolrError "HTTP 500")]
           [(Ping conn_r, Raised (SolrError "404"))]
           [(Ping conn_r, pong)]
           [accepted; pong; Raised (SolrError "HTTP 500")]
           [pong; Raised (SolrError "HTTP 500")]
           [Raised (SolrError "HTTP 500")] []
           "Could not create SOLR core ds_r" "HTTP 500"
           {| status := None; fields := None; error := None;
              ds_fields := None |}
           conn_r);
    reflexivity.
Defined.

Lemma map_type_known (t x : string) :
  map_type t = Ok x -> In x solr_types.
Proof.
  unfold map_type, field_type_map, solr_types.
  cbn [dict_get]. unfold key_eqb, string_Key.
  repeat match goal with
    | |- context [if String.eqb t ?k then _ else _] =>
        destruct (String.eqb t k)
    end;
    intro E; try discriminate E; injection E as <-; simpl; tauto.
Qed.

(** X23. The [type] that an add-field or a replace-field request of
    [create] carries is always one of the seven SOLR types of
    [field_type_map], whatever the desired fields and the schema read. *)
Theorem create_writes_only_mapped_types
    (World : Type) (respond : call -> World -> reply * World)
    (cfg : Config) (gettext : string -> string)
    (data_dict : DataDict) (connection : option Solr) (w : World)
    (conn : Solr) (cmd : schema_cmd) (f : solr_field) (rep : reply) :
  In (SchemaPost conn cmd f, rep)
     (trace (create respond cfg gettext data_dict connection w)) ->
  cmd <> DeleteField ->
  exists t, dict_get "type" f = Some (VStr t) /\ In t solr_types.
Proof.
  intros I Nd.
  destruct (create_posts_in_plan respond cfg gettext data_dict connection w
              _ I eq_refl)
    as (c & r & fs & d & _ & _ & Hd & [cmd' g] & Is & E).
  unfold post in E; simpl in E; injection E as <- <- <-.
  apply plan_in in Is.
  destruct (diff_fields_from _ _ Hd) as (keyed & K & KF & A & U & _).
  destruct cmd; [| |contradiction].
  - destruct (A f Is) as (x & t & _ & _ & T & ->).
    exists t; split; [reflexivity | exact (map_type_known _ T)].
  - destruct (U f Is) as (x & t & live & _ & _ & T & _ & _ & ->).
    exists t; split; [apply dict_get_set_same | exact (map_type_known _ T)].
Qed.

Lemma create_writes_only_mapped_types_witness :
  exists t,
    dict_get "type" (new_field "price" "float") = Some (VStr t)
    /\ In t solr_types.
Proof.
  apply (@create_writes_only_mapped_types
           (list reply) (scripted accepted) test_cfg no_translation
           (fields_only "r" [col "price" "money"]) (Some conn_r)
           [schema_is [id_field]] conn_r AddField
           (new_field "price" "float") accepted).
  - vm_compute; auto.
  - discriminate.
Defined.

(** X24. [upsert] adds and commits nothing unless it has obtained a
    connection: when its connection phase raises, [upsert] raises the same
    exception and has made no add and no commit. *)
Theorem upsert_without_connection_adds_nothing
    (World : Type) (respond : call -> World -> reply * World)
    (cfg : Config) (gettext : string -> string)
    (data_dict : DataDict) (connection : option Solr) (w : World)
    (e : exn) :
  res (upsert_connect respond cfg gettext data_dict connection w) = Raise e ->
  res (upsert respond cfg gettext data_dict connection w) = Raise e
  /\ filter is_doc_call
       (trace (upsert respond cfg gettext data_dict connection w)) = [].
Proof.
  intro R. unfold upsert.
  rewrite bind_res_raise with (1 := R); simpl.
  split; [reflexivity|].
  revert w R.
  assert (Q : avoids is_doc_call
                (upsert_connect respond cfg gettext data_dict connection)).
  { unfold upsert_connect.
    apply avoids_bind; [apply connect_avoids; reflexivity|].
    intros [c|]; (apply avoids_bind; [|intros [c'|]; through_avoids]).
    - apply avoids_ret.
    - apply avoids_bind; [through_avoids|]. intro ds.
      apply avoids_bind; [through_avoids|]. intro fs.
      apply avoids_bind; [apply create_avoids; reflexivity|].
      intro; apply make_connection_avoids; reflexivity. }
  intros w _; apply Q.
Qed.

Lemma upsert_without_connection_witness :
  let data_dict := {| resource_id := Some "r"; dd_fields := None;
                      records := Some [[("_id", VStr "1")]];
                      filters := None |} in
  let o := upsert (always (Raised (SolrError "down"))) test_cfg
             no_translation data_dict None tt in
  res o = Raise (SolrError "down") /\ filter is_doc_call (trace o) = [].
Proof.
  intro data_dict.
  apply (@upsert_without_connection_adds_nothing
           unit (always (Raised (SolrError "down"))) test_cfg no_translation
           data_dict None tt (SolrError "down")).
  reflexivity.
Defined.

Lemma filter_bind_left {World A B} p (m : M World A) (k : A -> M World B) w :
  (forall a, avoids p (k a)) ->
  filter p (trace (bind m k w)) = filter p (trace (m w)).
Proof.
  intro Q. unfold bind. destruct (res (m w)) as [a|e]; simpl; [|reflexivity].
  rewrite filter_app, Q. apply app_nil_r.
Qed.

Lemma filter_bind_right {World A B} p (m : M World A) (k : A -> M World B) w :
  avoids p m ->
  filter p (trace (bind m k w))
  = match res (m w) with
    | Ok a => filter p (trace (k a (final (m w))))
    | Raise _ => []
    end.
Proof.
  intro Q. unfold bind. destruct (res (m w)) as [a|e]; simpl; [|apply Q].
  rewrite filter_app, Q. reflexivity.
Qed.

(** X25. [upsert] asks the DataStore for the fields of the table at most
    once, for its own resource id and with limit 0, and only when no
    connection was passed in and the ping of the core was not answered
    with status OK. *)
Theorem upsert_reads_datastore_fields_only_for_absent_core
    (World : Type) (respond : call -> World -> reply * World)
    (cfg : Config) (gettext : string -> string)
    (data_dict : DataDict) (connection : option Solr) (w : World) :
  let core_name := core_name_of cfg data_dict in
  let o := upsert respond cfg gettext data_dict connection w in
  filter is_datastore_search (trace o) = []
  \/ (connection = None
      /\ ping_ok (fst (respond (Ping (core_url cfg core_name)) w)) = false
      /\ exists rep,
           filter is_datastore_search (trace o)
           = [(DatastoreSearch (resource_id data_dict) 0, rep)]).
Proof.
  intros core_name o; subst o. unfold upsert.
  rewrite filter_bind_left
    by (intro conn; unfold add_record; through_avoids).
  unfold upsert_connect. fold core_name.
  rewrite filter_bind_right by (apply connect_avoids; reflexivity).
  destruct connection as [c|]; unfold connect.
  { left. unfold ret at 1 2; cbn [res final].
    rewrite filter_bind_left by (intros [c'|]; through_avoids).
    reflexivity. }
  pose proof (make_connection_run respond cfg core_name w) as Hm.
  destruct (_make_connection respond cfg core_name w)
    as [[[c|]|e] evs w1] eqn:Hc; cbn [res final].
  - left. rewrite filter_bind_left by (intros [c'|]; through_avoids).
    reflexivity.
  - right. split; [reflexivity|]. split.
    { injection Hm as Hr _ _.
      destruct (fst (respond (Ping (core_url cfg core_name)) w)) as [e|x];
        [reflexivity|].
      destruct (ping_ok (Returned x)); [discriminate Hr | reflexivity]. }
    rewrite filter_bind_left by (intros [c'|]; through_avoids).
    rewrite filter_bind_left.
    + unfold request.
      destruct (respond (DatastoreSearch (resource_id data_dict) 0) w1)
        as [[e|x] w2]; simpl; eexists; reflexivity.
    + intro ds.
      apply avoids_bind; [through_avoids|]. intro fs.
      apply avoids_bind; [apply create_avoids; reflexivity|].
      intro; apply make_connection_avoids; reflexivity.
  - left; reflexivity.
Qed.
